(** * heco-relayer: the relayer's managers, embedded and verified

    A shallow embedding of the two manager files of the relayer
    (the poly-side manager with its [BridgeTransaction] queue and
    [EthSender], and the heco-side manager with its [CrossTransfer]
    queue), followed by the properties of the specification that concern
    them.

    Conventions.
    - Go's fixed-width unsigned integers are [Z] values with the
      wrap-around written out ([wrap64], [wrap32]).
    - [[]byte] is [list byte]; a Go [string] is a [String.string] and
      converts to bytes with [list_byte_of_string].
    - A [common.ZeroCopySink] is the list of bytes written so far, a
      [common.ZeroCopySource] the list of bytes still to read.
    - Calls that leave the process (RPC, key store, bridge service) are
      inputs of the functions that make them. *)

From Stdlib Require Import ZArith QArith Lia List String Ascii Bool.
From Stdlib.Strings Require Import Byte.
From stdpp Require Import gmap strings list fin_maps.
Import ListNotations.
Local Open Scope string_scope.
Local Open Scope Z_scope.
Local Open Scope list_scope.

(** ** Bytes and little-endian integers *)

Module Bytes.

Definition byteToZ (b : byte) : Z := Z.of_N (Byte.to_N b).

Definition byteOfZ (z : Z) : byte :=
  match Byte.of_N (Z.to_N (z mod 256)) with
  | Some b => b
  | None => x00
  end.

(** [binary.LittleEndian.PutUintNN]: the [n] low bytes of [z]. *)
Fixpoint le_bytes (n : nat) (z : Z) : list byte :=
  match n with
  | O => []
  | S n' => byteOfZ z :: le_bytes n' (z / 256)
  end.

(** [binary.LittleEndian.UintNN]. *)
Fixpoint le_value (bs : list byte) : Z :=
  match bs with
  | [] => 0
  | b :: r => byteToZ b + 256 * le_value r
  end.

Definition wrap8 (z : Z) : Z := z mod 2 ^ 8.
Definition wrap32 (z : Z) : Z := z mod 2 ^ 32.
Definition wrap64 (z : Z) : Z := z mod 2 ^ 64.

(** [int64(x)] of a 64-bit pattern. *)
Definition toInt64 (z : Z) : Z := (z + 2 ^ 63) mod 2 ^ 64 - 2 ^ 63.

#[global] Instance byte_eq_dec : EqDecision byte := Byte.byte_eq_dec.

End Bytes.
Export Bytes.

(** ** poly/common: ZeroCopySink and ZeroCopySource

    The sink only ever appends; each [WriteX] below is the library
    method of the same name.  The source is read front to back; each
    [NextX] returns the value, the [eof] flag and the source left.  When
    [NextBytes] runs short it hands back what is left and moves to the
    end, as the library does. *)

Module ZeroCopy.

Definition Sink := list byte.
Definition Source := list byte.

Definition varuint (data : Z) : list byte :=
  if data <? 0xFD then le_bytes 1 data
  else if data <=? 0xFFFF then byteOfZ 0xFD :: le_bytes 2 data
  else if data <=? 0xFFFFFFFF then byteOfZ 0xFE :: le_bytes 4 data
  else byteOfZ 0xFF :: le_bytes 8 data.

Definition varbytes (data : list byte) : list byte :=
  varuint (Z.of_nat (length data)) ++ data.

Definition WriteUint8 (v : Z) (sink : Sink) : Sink := sink ++ le_bytes 1 v.
Definition WriteUint32 (v : Z) (sink : Sink) : Sink := sink ++ le_bytes 4 v.
Definition WriteUint64 (v : Z) (sink : Sink) : Sink := sink ++ le_bytes 8 v.
Definition WriteVarUint (data : Z) (sink : Sink) : Sink := sink ++ varuint data.
Definition WriteVarBytes (data : list byte) (sink : Sink) : Sink :=
  WriteVarUint (Z.of_nat (length data)) sink ++ data.
Definition WriteString (s : string) (sink : Sink) : Sink :=
  WriteVarBytes (list_byte_of_string s) sink.

Definition NextBytes (n : Z) (src : Source) : list byte * bool * Source :=
  if Z.of_nat (length src) <? n then (src, true, [])
  else (take (Z.to_nat n) src, false, drop (Z.to_nat n) src).

Definition NextByte (src : Source) : byte * bool * Source :=
  match src with
  | [] => (x00, true, [])
  | b :: r => (b, false, r)
  end.

Definition NextUint8 (src : Source) : Z * bool * Source :=
  let '(b, eof, r) := NextByte src in (byteToZ b, eof, r).

Definition NextUintLE (n : Z) (src : Source) : Z * bool * Source :=
  let '(buf, eof, r) := NextBytes n src in
  if eof then (0, true, r) else (le_value buf, false, r).

Definition NextUint16 := NextUintLE 2.
Definition NextUint32 := NextUintLE 4.
Definition NextUint64 := NextUintLE 8.

Definition NextVarUint (src : Source) : Z * bool * Source :=
  let '(fb, eof, r) := NextByte src in
  if eof then (0, true, r)
  else if byteToZ fb =? 0xFD then NextUint16 r
  else if byteToZ fb =? 0xFE then NextUint32 r
  else if byteToZ fb =? 0xFF then NextUint64 r
  else (byteToZ fb, false, r).

Definition NextVarBytes (src : Source) : list byte * bool * Source :=
  let '(count, eof, r) := NextVarUint src in
  if eof then ([], true, r) else NextBytes count r.

Definition NextString (src : Source) : string * bool * Source :=
  let '(val, eof, r) := NextVarBytes src in (string_of_list_byte val, eof, r).

End ZeroCopy.
Export ZeroCopy.

(** ** Outcomes of a call

    A Go call either returns, panics, or is still running when the
    model's fuel is spent (the retry loops of the relayer have no exit
    of their own). *)

Inductive Run (A : Type) : Type :=
| Done (a : A)
| Panic (msg : string)
| OutOfFuel.
Arguments Done {A} a.
Arguments Panic {A} msg.
Arguments OutOfFuel {A}.

Definition bindRun {A B} (r : Run A) (k : A -> Run B) : Run B :=
  match r with
  | Done a => k a
  | Panic msg => Panic msg
  | OutOfFuel => OutOfFuel
  end.

#[global] Instance Run_bind : MBind Run := fun A B k r => bindRun r k.
#[global] Instance Run_ret : MRet Run := fun A a => Done a.

(** [strings.Contains]. *)
Fixpoint Contains (s substr : string) : bool :=
  if String.prefix substr s then true
  else match s with
       | EmptyString => false
       | String _ s' => Contains s' substr
       end.

(** ** What the managers import

    The types and functions of the libraries the two managers call
    (poly's core types and cross-chain manager, ontology-crypto,
    go-ethereum's crypto, ABI and hex packages, math/big, the bridge
    SDK).  They are not part of the relayer; the relayer's code is
    modelled over them. *)

Record PeerConfig := { Index : Z; ID : string }.
Record ChainConfig := { Peers : list PeerConfig }.
Record VbftBlockInfo := { NewChainConfig : option ChainConfig }.

Class Libs := {
  (* polytypes.Header *)
  Header : Type;
  Header_encode : Header -> list byte;
  Header_decode : Source -> option string * Header * Source;
  Header_Height : Header -> Z;
  ConsensusPayload : Header -> list byte;
  NextBookkeeper : Header -> list byte;
  SigData : Header -> list (list byte);
  GetMessage : Header -> list byte;
  (* common2.ToMerkleValue *)
  ToMerkleValue : Type;
  ToMerkleValue_encode : ToMerkleValue -> list byte;
  ToMerkleValue_decode : Source -> option string * ToMerkleValue * Source;
  TxHash : ToMerkleValue -> list byte;
  FromChainID : ToMerkleValue -> Z;
  MakeTxParam_TxHash : ToMerkleValue -> list byte;
  (* encoding/json on a VbftBlockInfo *)
  Unmarshal : list byte -> string + VbftBlockInfo;
  (* ontology-crypto keypair and signature *)
  PublicKey : Type;
  DeserializePublicKey : list byte -> option PublicKey;
  SortPublicKeys : list PublicKey -> list PublicKey;
  uncompressed : PublicKey -> list byte;
  ConvertToEthCompatible : list byte -> list byte;
  (* go-ethereum crypto, ABI, hexutil; encoding/hex *)
  Keccak256 : list byte -> list byte;
  Pack : string -> list (list byte) -> string + list byte;
  DecodeString : string -> list byte;
  EncodeToString : list byte -> string;
  hexutil_Encode : list byte -> string;
  hexutil_EncodeBig : Z -> string;
  HexToAddress : string -> list byte;
  (* go-ethereum's header and its hash; [nilHeader_Hash] is what
     [Hash] gives on the nil header a failed [HeaderByNumber] leaves,
     [None] when that call panics *)
  EthHeader : Type;
  EthHeader_Hash : EthHeader -> list byte;
  nilHeader_Hash : option (list byte);
  (* poly's eth cross-chain manager *)
  MappingKeyAt : string -> string -> string + list byte;
  MAIN_CHAIN : list byte;
  HeaderSyncContractAddress : string;
  (* math/big: [new(big.Float).SetString] *)
  SetString : string -> option Q;
  (* poly-bridge SDK *)
  STATE_HASPAY : Z;
  STATE_NOTPAY : Z;
  STATE_NOTPOLYPROXY : Z;
}.

(** [common.ADDRESS_EMPTY]: twenty zero bytes. *)
Definition ADDRESS_EMPTY : list byte := repeat x00 20.

(** [autils.GetUint64Bytes]. *)
Definition GetUint64Bytes (v : Z) : list byte := le_bytes 8 v.

(** A header, or a Merkle value, is valid when reading back what it
    serializes to gives it again and stops right after it. *)
Definition valid_Header `{Libs} (h : Header) : Prop :=
  forall rest, Header_decode (Header_encode h ++ rest) = (None, h, rest).

Definition valid_ToMerkleValue `{Libs} (p : ToMerkleValue) : Prop :=
  forall rest, ToMerkleValue_decode (ToMerkleValue_encode p ++ rest) = (None, p, rest).

(** ** The two work items and their binary form *)

Definition FEE_NOCHECK : Z := 0.
Definition FEE_HASPAY : Z := 1.
Definition FEE_NOTPAY : Z := 2.

Section BridgeTransactionDef.
Context `{Libs}.

(** [anchorHeader] is a pointer that may be nil; [hasPay] is a uint8. *)
Record BridgeTransaction := {
  header : Header;
  param : ToMerkleValue;
  headerProof : string;
  anchorHeader : option Header;
  polyTxHash : string;
  rawAuditPath : list byte;
  hasPay : Z;
  fee : string;
}.

Definition BridgeTransaction_Serialization
    (this : BridgeTransaction) (sink : Sink) : Sink :=
  let sink := sink ++ Header_encode (header this) in
  let sink := sink ++ ToMerkleValue_encode (param this) in
  let sink :=
    match negb (String.eqb (headerProof this) ""), anchorHeader this with
    | true, Some anchor =>
        let sink := WriteUint8 1 sink in
        let sink := WriteString (headerProof this) sink in
        sink ++ Header_encode anchor
    | _, _ => WriteUint8 0 sink
    end in
  let sink := WriteString (polyTxHash this) sink in
  let sink := WriteVarBytes (rawAuditPath this) sink in
  let sink := WriteUint8 (hasPay this) sink in
  WriteString (fee this) sink.

(** The four reads after the anchor pair. *)
Definition BridgeTransaction_Deserialization_tail
    (header : Header) (param : ToMerkleValue)
    (headerProof : string) (anchorHeader : option Header)
    (source : Source) : string + BridgeTransaction :=
  let '(polyTxHash, eof, source) := NextString source in
  if eof then inl "Waiting deserialize poly tx hash error" else
  let '(rawAuditPath, eof, source) := NextVarBytes source in
  if eof then inl "Waiting deserialize poly tx hash error" else
  let '(hasPay, eof, source) := NextUint8 source in
  if eof then inl "Waiting deserialize has pay error" else
  let '(fee, eof, source) := NextString source in
  if eof then inl "Waiting deserialize fee error" else
  inr {| header := header; param := param; headerProof := headerProof;
         anchorHeader := anchorHeader; polyTxHash := polyTxHash;
         rawAuditPath := rawAuditPath; hasPay := hasPay; fee := fee |}.

(** The error of the anchor header's own [Deserialization] is dropped:
    whatever header it filled and wherever it stopped is kept. *)
Definition BridgeTransaction_Deserialization
    (source : Source) : string + BridgeTransaction :=
  let '(err, header, source) := Header_decode source in
  match err with Some e => inl e | None =>
  let '(err, param, source) := ToMerkleValue_decode source in
  match err with Some e => inl e | None =>
  let '(anchor, eof, source) := NextUint8 source in
  if eof then inl "Waiting deserialize anchor error" else
  if anchor =? 1 then
    let '(headerProof, eof, source) := NextString source in
    if eof then inl "Waiting deserialize header proof error" else
    let '(_, anchorHeader, source) := Header_decode source in
    BridgeTransaction_Deserialization_tail
      header param headerProof (Some anchorHeader) source
  else
    BridgeTransaction_Deserialization_tail header param "" None source
  end end.

End BridgeTransactionDef.

(** [toChain] is a uint32, [height] a uint64. *)
Record CrossTransfer := {
  txIndex : string;
  txId : list byte;
  value : list byte;
  toChain : Z;
  height : Z;
}.

Definition CrossTransfer_Serialization
    (this : CrossTransfer) (sink : Sink) : Sink :=
  let sink := WriteString (txIndex this) sink in
  let sink := WriteVarBytes (txId this) sink in
  let sink := WriteVarBytes (value this) sink in
  let sink := WriteUint32 (toChain this) sink in
  WriteUint64 (height this) sink.

Definition CrossTransfer_Deserialization
    (source : Source) : string + CrossTransfer :=
  let '(txIndex, eof, source) := NextString source in
  if eof then inl "Waiting deserialize txIndex error" else
  let '(txId, eof, source) := NextVarBytes source in
  if eof then inl "Waiting deserialize txId error" else
  let '(value, eof, source) := NextVarBytes source in
  if eof then inl "Waiting deserialize value error" else
  let '(toChain, eof, source) := NextUint32 source in
  if eof then inl "Waiting deserialize toChain error" else
  let '(height, eof, source) := NextUint64 source in
  if eof then inl "Waiting deserialize height error" else
  inr {| txIndex := txIndex; txId := txId; value := value;
         toChain := toChain; height := height |}.

(** *** Valid fields

    Lengths and integers fit the widths the format gives them, and the
    library-typed fields are valid in the library's own sense. *)

Definition fits_varbytes (data : list byte) : Prop :=
  Z.of_nat (length data) < 2 ^ 64.

Definition valid_BridgeTransaction `{Libs} (b : BridgeTransaction) : Prop :=
  valid_Header (header b) /\
  valid_ToMerkleValue (param b) /\
  (forall a, anchorHeader b = Some a -> valid_Header a) /\
  fits_varbytes (list_byte_of_string (headerProof b)) /\
  fits_varbytes (list_byte_of_string (polyTxHash b)) /\
  fits_varbytes (rawAuditPath b) /\
  0 <= hasPay b < 2 ^ 8 /\
  fits_varbytes (list_byte_of_string (fee b)).

Definition valid_CrossTransfer (ct : CrossTransfer) : Prop :=
  fits_varbytes (list_byte_of_string (txIndex ct)) /\
  fits_varbytes (txId ct) /\
  fits_varbytes (value ct) /\
  0 <= toChain ct < 2 ^ 32 /\
  0 <= height ct < 2 ^ 64.

(** The proof and the anchor header are written only together. *)
Definition anchor_paired `{Libs} (b : BridgeTransaction) : bool :=
  match negb (String.eqb (headerProof b) ""), anchorHeader b with
  | true, Some _ => true
  | false, None => true
  | _, _ => false
  end.

(** What is left of an item once an unpaired proof or anchor is dropped. *)
Definition without_unpaired_anchor `{Libs} (b : BridgeTransaction)
    : BridgeTransaction :=
  match negb (String.eqb (headerProof b) ""), anchorHeader b with
  | true, Some _ => b
  | _, _ =>
      {| header := header b; param := param b; headerProof := "";
         anchorHeader := None; polyTxHash := polyTxHash b;
         rawAuditPath := rawAuditPath b; hasPay := hasPay b; fee := fee b |}
  end.

(** ** The persistent store *)

#[global] Instance byte_countable : Countable byte :=
  inj_countable Byte.to_N Byte.of_N Byte.of_to_N.

(** Modelled from the spec: the [db] package ([db.BoltDB]) is not among
    the sources.  Its buckets are those of the specification:
    [bridge_transactions] keyed by the hex of the source transaction
    hash, [retry] keyed by the serialized cross transfer itself,
    [check] keyed by the poly transaction hash, and the stored
    [polyHeight].  Every operation is one atomic transaction on one
    bucket and succeeds. *)
Record BoltDB := {
  bridge_transactions : gmap string (list byte);
  retry : gset (list byte);
  check : gmap string (list byte);
  polyHeight : Z;
}.

Definition GetPolyHeight (db : BoltDB) : Z := polyHeight db.

Definition UpdatePolyHeight (h : Z) (db : BoltDB) : BoltDB :=
  {| bridge_transactions := bridge_transactions db; retry := retry db;
     check := check db; polyHeight := h |}.

Definition PutBridgeTransactions (k : string) (v : list byte) (db : BoltDB)
    : BoltDB :=
  {| bridge_transactions := <[k := v]> (bridge_transactions db);
     retry := retry db; check := check db; polyHeight := polyHeight db |}.

Definition DeleteBridgeTransactions (k : string) (db : BoltDB) : BoltDB :=
  {| bridge_transactions := delete k (bridge_transactions db);
     retry := retry db; check := check db; polyHeight := polyHeight db |}.

Definition GetAllBridgeTransactions (db : BoltDB)
    : string + gmap string (list byte) :=
  inr (bridge_transactions db).

Definition PutRetry (v : list byte) (db : BoltDB) : BoltDB :=
  {| bridge_transactions := bridge_transactions db;
     retry := {[ v ]} ∪ retry db; check := check db;
     polyHeight := polyHeight db |}.

Definition DeleteRetry (v : list byte) (db : BoltDB) : BoltDB :=
  {| bridge_transactions := bridge_transactions db;
     retry := retry db ∖ {[ v ]}; check := check db;
     polyHeight := polyHeight db |}.

Definition GetAllRetry (db : BoltDB) : string + list (list byte) :=
  inr (elements (retry db)).

Definition PutCheck (txHash : string) (v : list byte) (db : BoltDB) : BoltDB :=
  {| bridge_transactions := bridge_transactions db; retry := retry db;
     check := <[txHash := v]> (check db); polyHeight := polyHeight db |}.

Definition DeleteCheck (txHash : string) (db : BoltDB) : BoltDB :=
  {| bridge_transactions := bridge_transactions db; retry := retry db;
     check := delete txHash (check db); polyHeight := polyHeight db |}.

Definition GetAllCheck (db : BoltDB) : string + gmap string (list byte) :=
  inr (check db).

(** ** EthSender *)

Definition CheckGasLimit (hash : string) (limit : Z) : option string :=
  if limit >? 300000 then Some "Skipping poly tx for gas limit too high"
  else None.

(** *** [uint64(float32(gasLimit) * 1.1)]

    A positive float32 is [m * 2^e] with [m] below [2^24].  [round_f32]
    is the nearest such value to [m * 2^e], ties to even; the exponent
    range of float32 is not reached by a uint64 scaled by 1.1.  The
    constant 1.1 as a float32 is [9227469 * 2^-23]. *)

Definition bitlen (m : Z) : Z := if m =? 0 then 0 else Z.log2 m + 1.

Definition round_f32 (m e : Z) : Z * Z :=
  let sh := bitlen m - 24 in
  if sh <=? 0 then (m, e)
  else
    let q := Z.shiftr m sh in
    let r := Z.land m (Z.ones sh) in
    let half := Z.shiftl 1 (sh - 1) in
    let q' := if (r >? half) || ((r =? half) && Z.odd q) then q + 1 else q in
    (q', e + sh).

Definition f32_to_uint64 (m e : Z) : Z :=
  if e >=? 0 then Z.shiftl m e else Z.shiftr m (- e).

Definition inflateGasLimit (gasLimit : Z) : Z :=
  let '(m1, e1) := round_f32 gasLimit 0 in
  let '(m2, e2) := round_f32 (m1 * 9227469) (e1 - 23) in
  f32_to_uint64 m2 e2.

Record EthTxInfo := {
  txData : list byte;
  gasLimit : Z;
  gasPrice : Z;
  contractAddr : list byte;
  info_polyTxHash : string;
}.

(** [cmap] maps a route to its channel; a channel is the list of jobs
    sent on it, oldest first.  The goroutine that drains a channel and
    the blocking of a send on a full channel are outside the model, and
    so is the nonce manager, which is not among the sources. *)
Record EthSender := {
  acc : string;
  cmap : gmap string (list EthTxInfo);
}.

(** One round of the confirmation loop of [waitTransactionConfirm]. *)
Inductive Poll :=
| PollError              (* TransactionByHash failed *)
| PollPending
| PollReceiptError       (* TransactionReceipt failed *)
| PollReceipt (status : Z).

Definition ReceiptStatusSuccessful : Z := 1.

(** The rounds are those that fit in the five minutes; when they are
    used up the deadline has passed. *)
Fixpoint waitTransactionConfirm (polls : list Poll) : bool :=
  match polls with
  | [] => false
  | PollReceipt status :: _ => status =? ReceiptStatusSuccessful
  | _ :: rest => waitTransactionConfirm rest
  end.

(** The answers [commitDepositEventsWithHeader] gets from outside. *)
Record DepositCalls := {
  dc_NewEthCrossChainData : option string;
  dc_CheckIfFromChainTxExist : Z -> list byte -> bool;
  dc_SuggestGasPrice : string + Z;
  dc_EstimateGas : string + Z;
  dc_getRouter : string;
}.

(** The answers [commitHeader] gets from outside. *)
Record HeaderCalls := {
  hc_SuggestGasPrice : string + Z;
  hc_EstimateGas : string + Z;
  hc_SignTransaction : option string;
  hc_SendTransaction : option string;
  hc_polls : list Poll;
}.

Section EthSenderDef.
Context `{Libs}.
Variable ECCMContractAddress : string.

Definition convertSigs (sigs : list (list byte)) : list byte :=
  flat_map ConvertToEthCompatible sigs.

(** The signatures come from the anchor header when there is one with
    a proof, else from the header. *)
Definition depositSigs (header : Header) (headerProof : string)
    (anchorHeader : option Header) : list byte :=
  match anchorHeader, negb (String.eqb headerProof "") with
  | Some anchor, true => convertSigs (SigData anchor)
  | _, _ => convertSigs (SigData header)
  end.

(** The packed call of [verifyHeaderAndExecuteTx]. *)
Definition depositTxData (header : Header) (headerProof : string)
    (anchorHeader : option Header) (rawAuditPath : list byte)
    : string + list byte :=
  let sigs := depositSigs header headerProof anchorHeader in
  let rawProof := DecodeString headerProof in
  let rawAnchor :=
    match anchorHeader with Some anchor => GetMessage anchor | None => [] end in
  let headerData := GetMessage header in
  Pack "verifyHeaderAndExecuteTx"
    [rawAuditPath; headerData; rawProof; rawAnchor; sigs].

(** [param.TxHash[:32]] needs 32 bytes; a slice's capacity is taken to
    be its length. *)
Definition commitDepositEventsWithHeader (calls : DepositCalls)
    (this : EthSender) (header : Header) (param : ToMerkleValue)
    (headerProof : string) (anchorHeader : option Header)
    (polyTxHash : string) (rawAuditPath : list byte)
    : Run (bool * EthSender) :=
  match dc_NewEthCrossChainData calls with
  | Some _ => Panic "failed to new eccm"
  | None =>
  if Z.of_nat (length (TxHash param)) <? 32
  then Panic "slice bounds out of range" else
  let fromTx := take 32 (TxHash param) in
  if dc_CheckIfFromChainTxExist calls (FromChainID param) fromTx
  then Done (true, this) else
  match depositTxData header headerProof anchorHeader rawAuditPath with
  | inl _ => Done (false, this)
  | inr txData =>
  match dc_SuggestGasPrice calls with
  | inl _ => Done (false, this)
  | inr gasPrice =>
  let contractaddr := HexToAddress ECCMContractAddress in
  match dc_EstimateGas calls with
  | inl _ => Done (false, this)
  | inr gasLimit =>
  let gasLimit := inflateGasLimit gasLimit in
  match CheckGasLimit polyTxHash gasLimit with
  | Some _ => Done (true, this)
  | None =>
  let k := dc_getRouter calls in
  let c := default [] (cmap this !! k) in
  let job := {| txData := txData; contractAddr := contractaddr;
                gasPrice := gasPrice; gasLimit := gasLimit;
                info_polyTxHash := polyTxHash |} in
  Done (true, {| acc := acc this; cmap := <[k := c ++ [job]]> (cmap this) |})
  end end end end end.

(** The result and, once the transaction was sent, what the
    confirmation wait reported (it is only logged).  When packing
    fails the code formats the nil error of the gas-price call. *)
Definition commitHeader (calls : HeaderCalls) (this : EthSender)
    (header : Header) (pubkList : list byte) : Run (bool * option bool) :=
  let headerdata := GetMessage header in
  match hc_SuggestGasPrice calls with
  | inl _ => Done (false, None)
  | inr gasPrice =>
  let sigs := convertSigs (SigData header) in
  match Pack "changeBookKeeper" [headerdata; pubkList; sigs] with
  | inl _ => Panic "nil pointer dereference"
  | inr txData =>
  match hc_EstimateGas calls with
  | inl _ => Done (false, None)
  | inr gasLimit =>
  match hc_SignTransaction calls with
  | Some _ => Done (false, None)
  | None =>
  match hc_SendTransaction calls with
  | Some _ => Done (false, None)
  | None =>
  let isSuccess := waitTransactionConfirm (hc_polls calls) in
  Done (true, Some isSuccess)
  end end end end end.

End EthSenderDef.

(** ** PolyManager *)

Record PolyManager := {
  currentHeight : Z;
  db : BoltDB;
  senders : list EthSender;
}.

(** [GetCurEpochStartHeight] answers a uint64 or fails. *)
Definition findLatestHeight (GetCurEpochStartHeight : string + Z) : Z :=
  match GetCurEpochStartHeight with
  | inl _ => 0
  | inr height => wrap32 height
  end.

Definition PolyManager_init (GetCurEpochStartHeight : string + Z)
    (this : PolyManager) : bool * PolyManager :=
  if currentHeight this >? 0 then (true, this)
  else
    let this := {| currentHeight := GetPolyHeight (db this);
                   db := db this; senders := senders this |} in
    let latestHeight := findLatestHeight GetCurEpochStartHeight in
    if latestHeight >? currentHeight this
    then (true, {| currentHeight := latestHeight;
                   db := db this; senders := senders this |})
    else (true, this).

(** *** selectSender *)

(** [x.Int64()] of a big integer: the low 64 bits of the magnitude as
    an int64, negated when [x] is negative. *)
Definition BigInt_Int64 (x : Z) : Z :=
  let v := toInt64 (Z.abs x mod 2 ^ 64) in
  if x <? 0 then toInt64 (- v) else v.

(** [z.Rand(rnd, n)]: zero when [n] is not positive, else a number
    below [n]; [draw] is what the generator yields. *)
Definition BigInt_Rand (draw : Z) (n : Z) : Z :=
  if n <=? 0 then 0 else draw mod n.

(** [BalanceAt] of sender [i] at its [n]-th attempt, and the draw of
    the time-seeded generator. *)
Record BalanceCalls := {
  bc_Balance : nat -> nat -> string + Z;
  bc_draw : Z;
}.

(** The [RETRY] label: ask again until a balance comes. *)
Fixpoint Balance_retry (fuel : nat) (answers : nat -> string + Z)
    (attempt : nat) : Run Z :=
  match fuel with
  | O => OutOfFuel
  | S fuel' =>
      match answers attempt with
      | inr bal => Done bal
      | inl _ => Balance_retry fuel' answers (S attempt)
      end
  end.

(** The first loop: the running sum and its [Int64] at each sender. *)
Fixpoint sumBalances (fuel : nat) (calls : BalanceCalls) (i : nat)
    (senders : list EthSender) (sum : Z) : Run (Z * list Z) :=
  match senders with
  | [] => Done (sum, [])
  | _ :: rest =>
      bal ← Balance_retry fuel (bc_Balance calls i) 0;
      let sum := sum + bal in
      '(total, balArr) ← sumBalances fuel calls (S i) rest sum;
      Done (total, BigInt_Int64 sum :: balArr)
  end.

(** The second loop: the first index whose entry is at least the sample. *)
Fixpoint firstAtLeast (balArr : list Z) (sample : Z) (i : nat) : option nat :=
  match balArr with
  | [] => None
  | v :: rest =>
      if v >=? sample then Some i else firstAtLeast rest sample (S i)
  end.

(** The sender is returned as its index in [senders]. *)
Definition selectSender (fuel : nat) (calls : BalanceCalls)
    (senders : list EthSender) : Run nat :=
  '(sum, balArr) ← sumBalances fuel calls 0 senders 0;
  let sum := BigInt_Rand (bc_draw calls) sum in
  match firstAtLeast balArr sum 0 with
  | Some i => Done i
  | None =>
      match senders with
      | [] => Panic "index out of range"
      | _ :: _ => Done 0%nat
      end
  end.

(** *** IsEpoch *)

Record EpochCalls := {
  ec_NewEthCrossChainData : option string;
  ec_GetCurEpochConPubKeyBytes : string + list byte;
}.

Section IsEpochDef.
Context `{Libs}.

(** Modelled from the spec: [tools.GetEthNoCompressKey] is not among
    the sources; it gives the uncompressed public key, 0x04 first. *)
Definition GetEthNoCompressKey (key : PublicKey) : list byte :=
  uncompressed key.

(** Modelled from the spec: [tools.GetNoCompresskey] is not among the
    sources; it gives the uncompressed public key less its leading
    0x04 byte. *)
Definition GetNoCompresskey (key : PublicKey) : list byte :=
  drop 1 (uncompressed key).

(** The peers' keys; decoding errors are dropped by the code, which
    leaves a nil key in the slice. *)
Definition peerKeys (peers : list PeerConfig) : list (option PublicKey) :=
  (fun peer => DeserializePublicKey (DecodeString (ID peer))) <$> peers.

(** The loop over the sorted keys: the flat key list and the sink. *)
Definition keeperStep (st : list byte * Sink) (key : PublicKey)
    : list byte * Sink :=
  let '(publickeys, sink) := st in
  let raw := GetNoCompresskey key in
  (publickeys ++ raw,
   WriteVarBytes (drop 12 (Keccak256 (drop 1 (GetEthNoCompressKey key)))) sink).

(** Sorting or encoding a nil key panics. *)
Definition IsEpoch (calls : EpochCalls) (hdr : Header)
    : Run (bool * list byte * option string) :=
  match Unmarshal (ConsensusPayload hdr) with
  | inl _ => Done (false, [], Some "commitHeader - unmarshal blockInfo error")
  | inr blkInfo =>
  match bool_decide (NextBookkeeper hdr = ADDRESS_EMPTY), NewChainConfig blkInfo with
  | true, _ | _, None => Done (false, [], None)
  | false, Some cfg =>
  match ec_NewEthCrossChainData calls with
  | Some _ => Done (false, [], Some "failed to new eccm")
  | None =>
  match ec_GetCurEpochConPubKeyBytes calls with
  | inl _ => Done (false, [], Some "failed to get current epoch keepers")
  | inr rawKeepers =>
  match mapM id (peerKeys (Peers cfg)) with
  | None => Panic "nil public key"
  | Some bookkeepers =>
  let bookkeepers := SortPublicKeys bookkeepers in
  let sink := WriteUint64 (Z.of_nat (length bookkeepers)) [] in
  let '(publickeys, sink) := foldl keeperStep ([], sink) bookkeepers in
  if bool_decide (rawKeepers = sink) then Done (false, [], None)
  else Done (true, publickeys, None)
  end end end end end.

(** [keccak256(uncompressedPubKey[1:])[12:]]. *)
Definition keeperAddress (key : PublicKey) : list byte :=
  drop 12 (Keccak256 (drop 1 (uncompressed key))).

(** The wire form of the keeper set in the words of the
    specification: [varuint(n)] followed by the key hashes. *)
Definition spec_keeper_wire_form (keys : list PublicKey) : list byte :=
  varuint (Z.of_nat (length keys)) ++ flat_map keeperAddress keys.

(** The wire form the code compares with: the count as a uint64, then
    each hash as varbytes. *)
Definition keeper_wire_form (keys : list PublicKey) : list byte :=
  le_bytes 8 (Z.of_nat (length keys)) ++
  flat_map (fun key => varbytes (keeperAddress key)) keys.

Definition flat_keys (keys : list PublicKey) : list byte :=
  flat_map (fun key => drop 1 (uncompressed key)) keys.

End IsEpochDef.

(** *** handleLockDepositEvents: one tick of the poly-to-heco relay *)

Record CheckFeeReq := { req_ChainId : Z; req_Hash : string }.

Record CheckFeeRsp := {
  ChainId : Z;
  Hash : string;
  PayState : Z;
  Amount : string;
  Error : string;
}.

Section RelayDef.
Context `{Libs}.
Variable ECCMContractAddress : string.

(** What one tick gets from outside: the bridge's answer to a fee
    query (nil or a list; its error is only logged), the order in which
    a [range] visits a map of items, the answers to [selectSender] and
    the number of balance attempts the model follows, and the answers
    to the sender's calls. *)
Record TickCalls := {
  tc_checkFee : list CheckFeeReq -> option (list CheckFeeRsp);
  tc_range : gmap string BridgeTransaction -> list (string * BridgeTransaction);
  tc_balances : BalanceCalls;
  tc_fuel : nat;
  tc_deposit : DepositCalls;
}.

(** A [range] visits every entry of the map once, in some order. *)
Definition range_ok
    (range : gmap string BridgeTransaction -> list (string * BridgeTransaction))
    : Prop :=
  forall m, range m ≡ₚ map_to_list m.

(** The first loop: items that do not deserialize are left out. *)
Definition loadBridgeTransactions (retryList : gmap string (list byte))
    : gmap string BridgeTransaction :=
  omap (fun v => match BridgeTransaction_Deserialization v with
                 | inr b => Some b
                 | inl _ => None
                 end) retryList.

Definition noCheckFees (visited : list (string * BridgeTransaction))
    : list CheckFeeReq :=
  (fun kv => {| req_ChainId := FromChainID (param kv.2); req_Hash := kv.1 |})
    <$> filter (fun kv => hasPay kv.2 = FEE_NOCHECK) visited.

Definition set_paid (item : BridgeTransaction) (amount : string)
    : BridgeTransaction :=
  {| header := header item; param := param item;
     headerProof := headerProof item; anchorHeader := anchorHeader item;
     polyTxHash := polyTxHash item; rawAuditPath := rawAuditPath item;
     hasPay := FEE_HASPAY; fee := amount |}.

Definition set_notpay (item : BridgeTransaction) : BridgeTransaction :=
  {| header := header item; param := param item;
     headerProof := headerProof item; anchorHeader := anchorHeader item;
     polyTxHash := polyTxHash item; rawAuditPath := rawAuditPath item;
     hasPay := FEE_NOTPAY; fee := fee item |}.

(** One answer of the bridge, written into the item the map points to. *)
Definition applyCheckFee (bridgeTransactions : gmap string BridgeTransaction)
    (checkFee : CheckFeeRsp) : gmap string BridgeTransaction :=
  if negb (String.eqb (Error checkFee) "") then bridgeTransactions
  else
    match bridgeTransactions !! Hash checkFee with
    | None => bridgeTransactions
    | Some item =>
        if PayState checkFee =? STATE_HASPAY
        then <[Hash checkFee := set_paid item (Amount checkFee)]> bridgeTransactions
        else if PayState checkFee =? STATE_NOTPAY
        then <[Hash checkFee := set_notpay item]> bridgeTransactions
        else if PayState checkFee =? STATE_NOTPOLYPROXY
        then <[Hash checkFee := set_notpay item]> bridgeTransactions
        else bridgeTransactions
    end.

(** The loop that drops the items marked NOTPAY. *)
Definition dropNotPay (st : BoltDB * gmap string BridgeTransaction)
    (kv : string * BridgeTransaction)
    : BoltDB * gmap string BridgeTransaction :=
  let '(db, bridgeTransactions) := st in
  let '(k, v) := kv in
  if hasPay v =? FEE_NOTPAY
  then (DeleteBridgeTransactions k db, delete k bridgeTransactions)
  else st.

(** The state of the selection loop. *)
Record MaxFee := {
  maxFee : Q;
  maxFeeOfTransaction : option BridgeTransaction;
  maxFeeOfTxHash : string;
}.

Definition MaxFee_start : MaxFee :=
  {| maxFee := 0%Q; maxFeeOfTransaction := None; maxFeeOfTxHash := "" |}.

(** [fee.Cmp(maxFee) > 0] is [maxFee < fee]. *)
Definition selectMaxFee (st : MaxFee) (kv : string * BridgeTransaction)
    : MaxFee :=
  let '(k, v) := kv in
  match SetString (fee v) with
  | None => st
  | Some fee =>
      if (hasPay v =? FEE_HASPAY) || negb (Qle_bool fee (maxFee st))
      then {| maxFee := fee; maxFeeOfTransaction := Some v;
              maxFeeOfTxHash := k |}
      else st
  end.

(** The last loop: write every item still in the map back. *)
Definition persist (db : BoltDB) (kv : string * BridgeTransaction) : BoltDB :=
  PutBridgeTransactions kv.1 (BridgeTransaction_Serialization kv.2 []) db.

(** The submission of the selected item.  The result tells whether the
    sender was asked at all and what it answered. *)
Definition submitMaxFee (calls : TickCalls) (sel : MaxFee)
    (st : BoltDB * gmap string BridgeTransaction * list EthSender)
    : Run (BoltDB * gmap string BridgeTransaction * list EthSender) :=
  let '(db, bridgeTransactions, senders) := st in
  match maxFeeOfTransaction sel with
  | None => Done st
  | Some tx =>
      i ← selectSender (tc_fuel calls) (tc_balances calls) senders;
      match senders !! i with
      | None => Panic "index out of range"
      | Some sender =>
          '(res, sender) ← commitDepositEventsWithHeader ECCMContractAddress
            (tc_deposit calls) sender (header tx) (param tx) (headerProof tx)
            (anchorHeader tx) (EncodeToString (TxHash (param tx)))
            (rawAuditPath tx);
          let senders := <[i := sender]> senders in
          if (res : bool)
          then Done (DeleteBridgeTransactions (maxFeeOfTxHash sel) db,
                     delete (maxFeeOfTxHash sel) bridgeTransactions, senders)
          else Done (db, bridgeTransactions, senders)
      end
  end.

(** The fee check: ask the bridge about the items not checked yet and
    write its answers into the items. *)
Definition markFees (calls : TickCalls)
    (bridgeTransactions : gmap string BridgeTransaction)
    : gmap string BridgeTransaction :=
  let noCheckFees := noCheckFees (tc_range calls bridgeTransactions) in
  if (0 <? length noCheckFees)%nat
  then match tc_checkFee calls noCheckFees with
       | Some checkFees => foldl applyCheckFee bridgeTransactions checkFees
       | None => bridgeTransactions
       end
  else bridgeTransactions.

Definition handleLockDepositEvents (calls : TickCalls) (this : PolyManager)
    : Run (option string * PolyManager) :=
  match GetAllBridgeTransactions (db this) with
  | inl _ =>
      Done (Some "handleLockDepositEvents - this.db.GetAllBridgeTransactions error",
            this)
  | inr retryList =>
  if (size retryList =? 0)%nat then Done (None, this) else
  let bridgeTransactions := loadBridgeTransactions retryList in
  let bridgeTransactions := markFees calls bridgeTransactions in
  let '(db, bridgeTransactions) :=
    foldl dropNotPay (db this, bridgeTransactions)
      (tc_range calls bridgeTransactions) in
  let sel := foldl selectMaxFee MaxFee_start (tc_range calls bridgeTransactions) in
  '(db, bridgeTransactions, senders) ←
    submitMaxFee calls sel (db, bridgeTransactions, senders this);
  let db := foldl persist db (tc_range calls bridgeTransactions) in
  Done (None, {| currentHeight := currentHeight this; db := db;
                 senders := senders |})
  end.

End RelayDef.

(** *** Predicates on the items of a tick *)

(** A header, or a Merkle value, frames: what it serializes to is read
    back without error and the reading stops right after it. *)
Definition frames_Header `{Libs} (h : Header) : Prop :=
  forall rest, exists h', Header_decode (Header_encode h ++ rest) = (None, h', rest).

Definition frames_ToMerkleValue `{Libs} (p : ToMerkleValue) : Prop :=
  forall rest, exists p',
    ToMerkleValue_decode (ToMerkleValue_encode p ++ rest) = (None, p', rest).

(** What the libraries deserialize, they serialize in frame: every
    header a [Deserialization] leaves behind, failed or not, and every
    Merkle value read without error. *)
Definition codecs_reencode `{Libs} : Prop :=
  (forall source, frames_Header (Header_decode source).1.2) /\
  (forall source p rest,
     ToMerkleValue_decode source = (None, p, rest) -> frames_ToMerkleValue p).

(** The fields written before [hasPay] frame or fit their length
    prefixes, and [hasPay] is a byte; the fee is free. *)
Definition storable `{Libs} (b : BridgeTransaction) : Prop :=
  frames_Header (header b) /\
  frames_ToMerkleValue (param b) /\
  (forall a, anchorHeader b = Some a -> frames_Header a) /\
  fits_varbytes (list_byte_of_string (headerProof b)) /\
  fits_varbytes (list_byte_of_string (polyTxHash b)) /\
  fits_varbytes (rawAuditPath b) /\
  0 <= hasPay b < 2 ^ 8.

(** The keys of the visited items that are marked NOTPAY. *)
Definition notPayKeys `{Libs} (visited : list (string * BridgeTransaction))
    : list string :=
  (filter (fun kv => hasPay kv.2 = FEE_NOTPAY) visited).*1.

(** ** HecoManager *)

Module Heco.

Record HecoConfig := {
  SideChainId : Z;
  CommitProofBlockConfig : Z;
}.

Record HecoManager := {
  currentHeight : Z;
  header4sync : list (list byte);
  db : BoltDB;
}.

(** What both chains answer: poly's storage under a contract and key,
    and heco's header at a number. *)
Record ChainViews `{Libs} := {
  GetStorage : string -> list byte -> string + list byte;
  HeaderByNumber : Z -> string + EthHeader;
}.

(** What [commitHecoHeaderToPoly] gets from outside: the result of the
    submission, and after a success the pairs (height of the
    transaction, current height) of the rounds of the wait. *)
Record SyncCalls `{Libs} := {
  sc_SyncBlockHeader : string + string;
  sc_polls : list (Z * Z);
  sc_views : ChainViews;
  sc_fuel : nat;
}.

(** What the proof relay gets from outside: heco's proof for a key at
    a height, and poly's answer to [ImportOuterTransfer] for a value,
    height and proof. *)
Record ProofCalls := {
  pc_GetProof : string -> string -> string + list byte;
  pc_ImportOuterTransfer : list byte -> Z -> list byte -> string + string;
}.

Section HecoManagerDef.
Context `{Libs}.
Variable config : HecoConfig.

(** The key of [MAIN_CHAIN] for this side chain at a height. *)
Definition mainChainKey (height : Z) : list byte :=
  MAIN_CHAIN ++ GetUint64Bytes (SideChainId config) ++ GetUint64Bytes height.

(** The loop of [rollBackToCommAncestor] on [currentHeight]; every
    [continue] and every end of the body runs the decrement. *)
Fixpoint rollBackLoop (fuel : nat) (views : ChainViews) (currentHeight : Z)
    : Run Z :=
  match fuel with
  | O => OutOfFuel
  | S fuel' =>
      match GetStorage views HeaderSyncContractAddress
              (mainChainKey currentHeight) with
      | inl _ => rollBackLoop fuel' views (wrap64 (currentHeight - 1))
      | inr raw =>
          if (length raw =? 0)%nat
          then rollBackLoop fuel' views (wrap64 (currentHeight - 1))
          else
            match HeaderByNumber views (toInt64 currentHeight) with
            | inl _ =>
                let currentHeight := wrap64 (currentHeight + 1) in
                match nilHeader_Hash with
                | None => Panic "nil pointer dereference"
                | Some hash =>
                    if bool_decide (hash = raw) then Done currentHeight
                    else rollBackLoop fuel' views (wrap64 (currentHeight - 1))
                end
            | inr hdr =>
                if bool_decide (EthHeader_Hash hdr = raw) then Done currentHeight
                else rollBackLoop fuel' views (wrap64 (currentHeight - 1))
            end
      end
  end.

Definition rollBackToCommAncestor (fuel : nat) (views : ChainViews)
    (this : HecoManager) : Run HecoManager :=
  h ← rollBackLoop fuel views (currentHeight this);
  Done {| currentHeight := h; header4sync := []; db := db this |}.

(** The wait for the header transaction: until its height is known
    and below the current height. *)
Fixpoint waitSynced (polls : list (Z * Z)) : Run Z :=
  match polls with
  | [] => OutOfFuel
  | (h, curr) :: rest =>
      if (h >? 0) && (curr >? h) then Done h else waitSynced rest
  end.

Definition commitHecoHeaderToPoly (calls : SyncCalls) (this : HecoManager)
    : Run (Z * HecoManager) :=
  match sc_SyncBlockHeader calls with
  | inl errDesc =>
      if Contains errDesc "parent header not exist"
         || Contains errDesc "missing required field"
      then
        this ← rollBackToCommAncestor (sc_fuel calls) (sc_views calls) this;
        Done (0, this)
      else Done (1, this)
  | inr tx =>
      _ ← waitSynced (sc_polls calls);
      Done (0, {| currentHeight := currentHeight this; header4sync := [];
                  db := db this |})
  end.

Definition commitProof (calls : ProofCalls) (height : Z) (proof : list byte)
    (value : list byte) (txhash : list byte) : string + string :=
  pc_ImportOuterTransfer calls value height proof.

(** The body of the loop of [handleCachedLockDepositEvents] for one
    entry [v] of the retry bucket. *)
Definition handleCachedItem (calls : ProofCalls) (refHeight : Z)
    (db : BoltDB) (v : list byte) : BoltDB :=
  match CrossTransfer_Deserialization v with
  | inl _ => db
  | inr crosstx =>
  match MappingKeyAt (txIndex crosstx) "01" with
  | inl _ => db
  | inr keyBytes =>
  if refHeight <=? wrap64 (height crosstx + CommitProofBlockConfig config)
  then db else
  let height := toInt64 (wrap64 (refHeight - CommitProofBlockConfig config)) in
  let heightHex := hexutil_EncodeBig height in
  let proofKey := hexutil_Encode keyBytes in
  match pc_GetProof calls proofKey heightHex with
  | inl _ => db
  | inr proof =>
  match commitProof calls (wrap32 height) proof (value crosstx) (txId crosstx) with
  | inl err =>
      if Contains err "chooseUtxos, current utxo is not enough" then db
      else if Contains err "tx already done" then DeleteRetry v db
      else db
  | inr txHash => DeleteRetry v (PutCheck txHash v db)
  end end end end.

(** What [commitProof] answers for the entry [v], when the loop body
    gets as far as calling it. *)
Definition proofAttempt (calls : ProofCalls) (refHeight : Z) (v : list byte)
    : option (string + string) :=
  match CrossTransfer_Deserialization v with
  | inl _ => None
  | inr crosstx =>
  match MappingKeyAt (txIndex crosstx) "01" with
  | inl _ => None
  | inr keyBytes =>
  if refHeight <=? wrap64 (height crosstx + CommitProofBlockConfig config)
  then None else
  let height := toInt64 (wrap64 (refHeight - CommitProofBlockConfig config)) in
  match pc_GetProof calls (hexutil_Encode keyBytes) (hexutil_EncodeBig height) with
  | inl _ => None
  | inr proof =>
      Some (commitProof calls (wrap32 height) proof (value crosstx) (txId crosstx))
  end end end.

(** Whether the loop body leaves the entry [v] in the retry bucket. *)
Definition staysInRetry (calls : ProofCalls) (refHeight : Z) (v : list byte)
    : bool :=
  match proofAttempt calls refHeight v with
  | None => true
  | Some (inl err) =>
      Contains err "chooseUtxos, current utxo is not enough"
      || negb (Contains err "tx already done")
  | Some (inr _) => false
  end.

Definition handleCachedLockDepositEvents (calls : ProofCalls) (refHeight : Z)
    (this : HecoManager) : option string * HecoManager :=
  match GetAllRetry (db this) with
  | inl _ => (Some "handleLockDepositEvents - this.db.GetAllRetry error", this)
  | inr retryList =>
      (None, {| currentHeight := currentHeight this;
                header4sync := header4sync this;
                db := foldl (handleCachedItem calls refHeight) (db this) retryList |})
  end.

End HecoManagerDef.

End Heco.

(** *** Agreement of the two chains at a height

    Poly records a hash for the height and heco's header at that
    height has this hash. *)

Definition commonAncestor `{Libs} (config : Heco.HecoConfig)
    (views : Heco.ChainViews) (height : Z) : bool :=
  match Heco.GetStorage views HeaderSyncContractAddress
          (Heco.mainChainKey config height) with
  | inl _ => false
  | inr raw =>
      if (length raw =? 0)%nat then false
      else match Heco.HeaderByNumber views (toInt64 height) with
           | inl _ => false
           | inr hdr => bool_decide (EthHeader_Hash hdr = raw)
           end
  end.

(** Heco answers with a header at the height. *)
Definition hecoAnswers `{Libs} (views : Heco.ChainViews) (height : Z) : Prop :=
  exists hdr, Heco.HeaderByNumber views (toInt64 height) = inr hdr.

(** ** A small instance of the libraries

    Enough of each library to run the model on concrete inputs: a
    header is its height, a Merkle value its transaction hash and
    source chain, a public key its uncompressed bytes, a go-ethereum
    header its hash.  None of the general theorems depends on it. *)

Module Sample.

(** Plain decimal literals, [digits] or [digits.digits], as
    [big.Float.SetString] reads them. *)
Definition digit (c : ascii) : option Z :=
  let n := Z.of_nat (nat_of_ascii c) in
  if (48 <=? n) && (n <=? 57) then Some (n - 48) else None.

Fixpoint digits (s : string) (acc : Z) (scale : Z) (frac : bool)
    : option (Z * Z) :=
  match s with
  | EmptyString => Some (acc, scale)
  | String c s' =>
      if Ascii.eqb c "."%char
      then if frac then None else
           match s' with
           | EmptyString => None
           | _ => digits s' acc scale true
           end
      else match digit c with
           | None => None
           | Some d =>
               digits s' (10 * acc + d) (if frac then 10 * scale else scale) frac
           end
  end.

Definition decimal (s : string) : option Q :=
  match s with
  | EmptyString => None
  | String c _ =>
      if Ascii.eqb c "."%char then None
      else match digits s 0 1 false with
           | Some (n, scale) => Some (Qmake n (Z.to_pos scale))
           | None => None
           end
  end.

Record MerkleValue := { mv_TxHash : list byte; mv_FromChainID : Z }.

Definition decodeHeight (source : Source) : option string * Z * Source :=
  let '(h, eof, source) := NextUint32 source in
  (if eof then Some "deserialize header error" else None, h, source).

Definition decodeMerkleValue (source : Source)
    : option string * MerkleValue * Source :=
  let '(txHash, eof, source) := NextVarBytes source in
  if eof
  then (Some "deserialize merkle value error",
        {| mv_TxHash := txHash; mv_FromChainID := 0 |}, source)
  else
    let '(id, eof, source) := NextUint64 source in
    (if eof then Some "deserialize merkle value error" else None,
     {| mv_TxHash := txHash; mv_FromChainID := id |}, source).

(** A consensus payload: empty is malformed, a leading zero byte means
    no new chain configuration, anything else one peer whose id is the
    rest of the payload. *)
Definition unmarshal (payload : list byte) : string + VbftBlockInfo :=
  match payload with
  | [] => inl "unexpected end of JSON input"
  | b :: rest =>
      if bool_decide (b = x00) then inr {| NewChainConfig := None |}
      else inr {| NewChainConfig :=
                    Some {| Peers := [ {| Index := 1;
                                          ID := string_of_list_byte rest |} ] |} |}
  end.

#[local] Instance libs : Libs := {|
  Header := Z;
  Header_encode := le_bytes 4;
  Header_decode := decodeHeight;
  Header_Height := fun h => h;
  ConsensusPayload := fun h => if h =? 0 then [] else [byteOfZ h; x04; x2a];
  NextBookkeeper := fun h => if h <? 100 then ADDRESS_EMPTY else repeat x01 20;
  SigData := fun _ => [];
  GetMessage := le_bytes 4;
  ToMerkleValue := MerkleValue;
  ToMerkleValue_encode := fun p =>
    varbytes (mv_TxHash p) ++ le_bytes 8 (mv_FromChainID p);
  ToMerkleValue_decode := decodeMerkleValue;
  TxHash := mv_TxHash;
  FromChainID := mv_FromChainID;
  MakeTxParam_TxHash := mv_TxHash;
  Unmarshal := unmarshal;
  PublicKey := list byte;
  DeserializePublicKey := fun keystr =>
    match keystr with [] => None | _ => Some keystr end;
  SortPublicKeys := fun keys => keys;
  uncompressed := fun key => key;
  ConvertToEthCompatible := fun sig => sig;
  Keccak256 := fun _ => repeat x00 32;
  Pack := fun _ args => inr (concat args);
  DecodeString := list_byte_of_string;
  EncodeToString := string_of_list_byte;
  hexutil_Encode := string_of_list_byte;
  hexutil_EncodeBig := fun _ => "0x0";
  HexToAddress := list_byte_of_string;
  EthHeader := list byte;
  EthHeader_Hash := fun hdr => hdr;
  nilHeader_Hash := Some [];
  MappingKeyAt := fun key _ => inr (list_byte_of_string key);
  MAIN_CHAIN := list_byte_of_string "mainChain";
  HeaderSyncContractAddress := "0400000000000000000000000000000000000000";
  SetString := decimal;
  STATE_HASPAY := 1;
  STATE_NOTPAY := -1;
  STATE_NOTPOLYPROXY := -2;
|}.

(** *** Sample items *)

Definition item : BridgeTransaction :=
  {| header := 100;
     param := {| mv_TxHash := repeat x07 32; mv_FromChainID := 7 |};
     headerProof := "ab"; anchorHeader := Some 101;
     polyTxHash := "c0ffee"; rawAuditPath := [x01; x02; x03];
     hasPay := FEE_HASPAY; fee := "1.5" |}.

Definition transfer : CrossTransfer :=
  {| txIndex := "12"; txId := [x0a; x0b]; value := [x01]; toChain := 7;
     height := 1000 |}.

(** An item with an anchor header and an empty proof: the anchor is
    not written, so it does not come back. *)
Definition unpaired_item : BridgeTransaction :=
  {| header := 100;
     param := {| mv_TxHash := repeat x07 32; mv_FromChainID := 7 |};
     headerProof := ""; anchorHeader := Some 101;
     polyTxHash := "c0ffee"; rawAuditPath := [x01; x02; x03];
     hasPay := FEE_NOCHECK; fee := "" |}.

(** *** Sample stores, senders and answers *)

Definition store (items : gmap string (list byte)) (h : Z) : BoltDB :=
  {| bridge_transactions := items; retry := ∅; check := ∅; polyHeight := h |}.

Definition sender (name : string) : EthSender :=
  {| acc := name; cmap := ∅ |}.

Definition manager (flag : Z) (stored : Z) : PolyManager :=
  {| currentHeight := flag; db := store ∅ stored; senders := [sender "a"] |}.

(** A heco node that estimates [g] gas and knows of no earlier relay. *)
Definition deposit_calls (g : Z) : DepositCalls :=
  {| dc_NewEthCrossChainData := None;
     dc_CheckIfFromChainTxExist := fun _ _ => false;
     dc_SuggestGasPrice := inr 1;
     dc_EstimateGas := inr g;
     dc_getRouter := "0" |}.

(** Every sender holds [bal] and answers at once. *)
Definition balance_calls (bal : Z) (draw : Z) : BalanceCalls :=
  {| bc_Balance := fun _ _ => inr bal; bc_draw := draw |}.

(** A tick whose bridge gives no answer, whose [range] follows the
    order of [map_to_list], and whose senders hold 5 each. *)
Definition tick_calls (g : Z) : TickCalls :=
  {| tc_checkFee := fun _ => None;
     tc_range := map_to_list;
     tc_balances := balance_calls 5 3;
     tc_fuel := 1;
     tc_deposit := deposit_calls g |}.

Definition selected_item : MaxFee :=
  {| maxFee := 1.5%Q; maxFeeOfTransaction := Some item;
     maxFeeOfTxHash := "c0ffee" |}.

(** The header at height 200 names one new peer, with the key
    [04 2a]; heco reports [rawKeepers] as its current keepers. *)
Definition epoch_key : list byte := [x04; x2a].

Definition epoch_calls (rawKeepers : list byte) : EpochCalls :=
  {| ec_NewEthCrossChainData := None;
     ec_GetCurEpochConPubKeyBytes := inr rawKeepers |}.

(** *** A sample queue

    Three items: one not checked yet, which the bridge reports as not
    paid, and two paid ones with fees 2 and 1; and an entry that is
    not an item at all. *)
Definition queued (tx : byte) (pay : Z) (f : string) : BridgeTransaction :=
  {| header := 100;
     param := {| mv_TxHash := repeat tx 32; mv_FromChainID := 7 |};
     headerProof := ""; anchorHeader := None;
     polyTxHash := "c0ffee"; rawAuditPath := [x01; x02; x03];
     hasPay := pay; fee := f |}.

Definition unchecked_item : BridgeTransaction := queued x61 FEE_NOCHECK "".
Definition fee1_item : BridgeTransaction := queued x62 FEE_HASPAY "1".
Definition fee2_item : BridgeTransaction := queued x63 FEE_HASPAY "2".

Definition queue : gmap string (list byte) :=
  <["aa" := BridgeTransaction_Serialization unchecked_item []]>
  (<["bb" := BridgeTransaction_Serialization fee1_item []]>
  (<["cc" := BridgeTransaction_Serialization fee2_item []]>
  (<["zz" := [x00]]> ∅))).

Definition paid_queue : gmap string (list byte) :=
  <["bb" := BridgeTransaction_Serialization fee1_item []]>
  (<["cc" := BridgeTransaction_Serialization fee2_item []]> ∅).

Definition relay_manager (items : gmap string (list byte)) : PolyManager :=
  {| currentHeight := 100; db := store items 99; senders := [sender "a"] |}.

(** The bridge answers every query with "not paid". *)
Definition notpay_calls : TickCalls :=
  {| tc_checkFee := fun reqs =>
       Some ((fun r => {| ChainId := req_ChainId r; Hash := req_Hash r;
                          PayState := -1; Amount := ""; Error := "" |}) <$> reqs);
     tc_range := map_to_list;
     tc_balances := balance_calls 5 3;
     tc_fuel := 1;
     tc_deposit := deposit_calls 90000 |}.

(** The manager a tick leaves behind; the manager itself when the
    tick does not return. *)
Definition after_tick (calls : TickCalls) (this : PolyManager) : PolyManager :=
  match handleLockDepositEvents "eccm" calls this with
  | Done (_, this') => this'
  | _ => this
  end.

(** The jobs sent on route "0" of the first sender. *)
Definition jobs_sent (this : PolyManager) : list EthTxInfo :=
  match senders this with
  | s :: _ => default [] (cmap s !! "0")
  | [] => []
  end.

(** A header commit whose transaction is sent and then reverts. *)
Definition reverted_header_calls : HeaderCalls :=
  {| hc_SuggestGasPrice := inr 1; hc_EstimateGas := inr 90000;
     hc_SignTransaction := None; hc_SendTransaction := None;
     hc_polls := [PollPending; PollReceipt 0] |}.

End Sample.

(** *** A sample fork on heco (scenario S5)

    Poly records a hash for the heights up to 1000; heco's header has
    that hash at 1000 only. *)

Module SampleFork.

#[local] Existing Instance Sample.libs.

Definition config : Heco.HecoConfig :=
  {| Heco.SideChainId := 7; Heco.CommitProofBlockConfig := 21 |}.

(** The height a [MAIN_CHAIN] key ends with. *)
Definition keyHeight (key : list byte) : Z := le_value (drop 17 key).

Definition views : Heco.ChainViews :=
  {| Heco.GetStorage := fun _ key =>
       if keyHeight key <=? 1000 then inr [x01] else inr [];
     Heco.HeaderByNumber := fun n =>
       inr (if n =? 1000 then [x01] else [x02]) |}.

Definition calls : Heco.SyncCalls :=
  {| Heco.sc_SyncBlockHeader := inl "SyncBlockHeader, parent header not exist";
     Heco.sc_polls := [];
     Heco.sc_views := views;
     Heco.sc_fuel := 51 |}.

Definition manager : Heco.HecoManager :=
  {| Heco.currentHeight := 1050;
     Heco.header4sync := [[x0a]; [x0b]];
     Heco.db := Sample.store ∅ 0 |}.

End SampleFork.

(** *** A sample retry bucket (scenario S6) *)

Module SampleRetry.

#[local] Existing Instance Sample.libs.

Definition entry : list byte := CrossTransfer_Serialization Sample.transfer [].

Definition manager : Heco.HecoManager :=
  {| Heco.currentHeight := 2000;
     Heco.header4sync := [];
     Heco.db := {| bridge_transactions := ∅; retry := {[ entry ]};
                   check := ∅; polyHeight := 0 |} |}.

(** Poly answers every import with the error [err]. *)
Definition failing (err : string) : Heco.ProofCalls :=
  {| Heco.pc_GetProof := fun _ _ => inr [x0c];
     Heco.pc_ImportOuterTransfer := fun _ _ _ => inl err |}.

(** Poly accepts every import under the transaction hash [tx]. *)
Definition accepting (tx : string) : Heco.ProofCalls :=
  {| Heco.pc_GetProof := fun _ _ => inr [x0c];
     Heco.pc_ImportOuterTransfer := fun _ _ _ => inr tx |}.

End SampleRetry.

(** ** HecoManager: start height, header capture, check bucket *)

Module HecoScan.

(** What poly answers for the event of a transaction hash: an error,
    no event, or the event with its [State]. *)
Definition EventAnswer := string -> string + option Z.

Section HecoScanDef.
Context `{Libs}.
Variable config : Heco.HecoConfig.

(** [scom.CURRENT_HEADER_HEIGHT], [hdr.MarshalJSON()] and the
    [BlockConfig] of the configuration. *)
Variable CURRENT_HEADER_HEIGHT : list byte.
Variable MarshalJSON : EthHeader -> list byte.
Variable BlockConfig : Z.

(** [binary.LittleEndian.Uint64] reads the first eight bytes and
    panics on a shorter slice. *)
Definition LittleEndian_Uint64 (b : list byte) : Run Z :=
  if (length b <? 8)%nat then Panic "index out of range"
  else Done (le_value (take 8 b)).

Definition findLastestHeight (views : Heco.ChainViews) : Run Z :=
  let key := CURRENT_HEADER_HEIGHT ++ le_bytes 8 (Heco.SideChainId config) in
  match Heco.GetStorage views HeaderSyncContractAddress key with
  | inl _ => Done 0
  | inr result =>
      if (length result =? 0)%nat then Done 0 else LittleEndian_Uint64 result
  end.

(** [init]; [forceHeight] is the field the manager was created with. *)
Definition HecoManager_init (forceHeight : Z) (views : Heco.ChainViews)
    (this : Heco.HecoManager) : Run (option string * Heco.HecoManager) :=
  latestHeight ← findLastestHeight views;
  if latestHeight =? 0
  then Done (Some "init - the genesis block has not synced!", this)
  else
    let currentHeight :=
      if (forceHeight >? 0) && (forceHeight <? latestHeight) then forceHeight
      else if latestHeight >? BlockConfig
           then wrap64 (latestHeight - BlockConfig)
           else latestHeight in
    Done (None, {| Heco.currentHeight := currentHeight;
                   Heco.header4sync := Heco.header4sync this;
                   Heco.db := Heco.db this |}).

(** [handleBlockHeader]; the error of [GetStorage] is dropped and
    leaves [raw] empty. *)
Definition handleBlockHeader (views : Heco.ChainViews) (height : Z)
    (this : Heco.HecoManager) : bool * Heco.HecoManager :=
  match Heco.HeaderByNumber views (toInt64 height) with
  | inl _ => (false, this)
  | inr hdr =>
      let rawHdr := MarshalJSON hdr in
      let raw :=
        match Heco.GetStorage views HeaderSyncContractAddress
                (Heco.mainChainKey config height) with
        | inl _ => []
        | inr raw => raw
        end in
      if (length raw =? 0)%nat || negb (bool_decide (raw = EthHeader_Hash hdr))
      then (true, {| Heco.currentHeight := Heco.currentHeight this;
                     Heco.header4sync := Heco.header4sync this ++ [rawHdr];
                     Heco.db := Heco.db this |})
      else (true, this)
  end.

End HecoScanDef.

(** Poly knows the event of the transaction; and it knows it and its
    state is not success. *)
Definition eventSettled (GetSmartContractEvent : EventAnswer) (k : string)
    : bool :=
  match GetSmartContractEvent k with
  | inr (Some _) => true
  | _ => false
  end.

Definition eventFailed (GetSmartContractEvent : EventAnswer) (k : string)
    : bool :=
  match GetSmartContractEvent k with
  | inr (Some state) => negb (state =? 1)
  | _ => false
  end.

(** The body of the loop of [checkLockDepositEvents] for one entry of
    the check bucket. *)
Definition checkEntry (GetSmartContractEvent : EventAnswer) (db : BoltDB)
    (kv : string * list byte) : BoltDB :=
  let '(k, v) := kv in
  match GetSmartContractEvent k with
  | inl _ => db
  | inr None => db
  | inr (Some state) =>
      let db := if negb (state =? 1) then PutRetry v db else db in
      DeleteCheck k db
  end.

(** [checkLockDepositEvents]; [range] is the order in which the loop
    visits the check bucket. *)
Definition checkLockDepositEvents (GetSmartContractEvent : EventAnswer)
    (range : gmap string (list byte) -> list (string * list byte))
    (this : Heco.HecoManager) : option string * Heco.HecoManager :=
  match GetAllCheck (Heco.db this) with
  | inl _ => (Some "checkLockDepositEvents - this.db.GetAllCheck error", this)
  | inr checkMap =>
      (None, {| Heco.currentHeight := Heco.currentHeight this;
                Heco.header4sync := Heco.header4sync this;
                Heco.db := foldl (checkEntry GetSmartContractEvent)
                             (Heco.db this) (range checkMap) |})
  end.

(** A [range] over a bucket visits every entry once, in some order. *)
Definition bucket_range_ok
    (range : gmap string (list byte) -> list (string * list byte)) : Prop :=
  forall m, range m ≡ₚ map_to_list m.

End HecoScan.

(** *** A sample of poly's view of heco

    As in the sample fork, with the synced height 1000 recorded under
    the current-height key; the check bucket holds one transfer whose
    poly transaction failed, one that succeeded and one poly does not
    know yet. *)

Module SampleScan.

#[local] Existing Instance Sample.libs.

Definition CURRENT_HEADER_HEIGHT : list byte :=
  list_byte_of_string "currentHeight".

Definition views : Heco.ChainViews :=
  {| Heco.GetStorage := fun contract key =>
       if bool_decide (key = CURRENT_HEADER_HEIGHT ++ le_bytes 8 7)
       then inr (le_bytes 8 1000)
       else Heco.GetStorage SampleFork.views contract key;
     Heco.HeaderByNumber := Heco.HeaderByNumber SampleFork.views |}.

Definition events : HecoScan.EventAnswer := fun k =>
  if String.eqb k "f1" then inr (Some 0)
  else if String.eqb k "f2" then inr (Some 1)
  else if String.eqb k "f3" then inr None
  else inl "unknown transaction".

Definition checking : Heco.HecoManager :=
  {| Heco.currentHeight := 2000;
     Heco.header4sync := [];
     Heco.db := {| bridge_transactions := ∅; retry := ∅;
                   check := <["f1" := [x01]]> (<["f2" := [x02]]>
                            (<["f3" := [x03]]> ∅));
                   polyHeight := 0 |} |}.

End SampleScan.

(** * Properties

    ** Little-endian integers *)

Lemma byteToZ_range b : 0 <= byteToZ b < 256.
Proof.
  unfold byteToZ. pose proof (Byte.to_N_bounded b) as H. lia.
Qed.

Lemma byteToZ_byteOfZ z : byteToZ (byteOfZ z) = z mod 256.
Proof.
  unfold byteToZ, byteOfZ.
  assert (Hr : 0 <= z mod 256 < 256) by (apply Z.mod_pos_bound; lia).
  destruct (Byte.of_N (Z.to_N (z mod 256))) as [b|] eqn:E.
  - apply Byte.to_of_N in E. rewrite E. lia.
  - apply Byte.of_N_None_iff in E. lia.
Qed.

Lemma byteOfZ_byteToZ b : byteOfZ (byteToZ b) = b.
Proof.
  unfold byteOfZ. pose proof (byteToZ_range b) as Hr.
  rewrite Z.mod_small by lia. unfold byteToZ. rewrite N2Z.id.
  now rewrite Byte.of_to_N.
Qed.

Lemma length_le_bytes n z : length (le_bytes n z) = n.
Proof. revert z. induction n as [|n IH]; intros z; simpl; [easy|]. now rewrite IH. Qed.

Lemma le_value_le_bytes n z :
  0 <= z < 256 ^ Z.of_nat n -> le_value (le_bytes n z) = z.
Proof.
  revert z. induction n as [|n IH]; intros z Hz.
  - simpl in *. lia.
  - cbn [le_bytes le_value]. rewrite byteToZ_byteOfZ.
    rewrite Nat2Z.inj_succ, Z.pow_succ_r in Hz by lia.
    rewrite IH.
    + pose proof (Z.div_mod z 256). lia.
    + split; [apply Z.div_pos; lia|]. apply Z.div_lt_upper_bound; lia.
Qed.

Lemma le_value_range bs : 0 <= le_value bs < 256 ^ Z.of_nat (length bs).
Proof.
  induction bs as [|b r IH].
  - simpl. lia.
  - cbn [le_value length]. rewrite Nat2Z.inj_succ, Z.pow_succ_r by lia.
    pose proof (byteToZ_range b). lia.
Qed.

(** *** Reading back what was written *)

Lemma NextBytes_app (data rest : list byte) :
  NextBytes (Z.of_nat (length data)) (data ++ rest) = (data, false, rest).
Proof.
  unfold NextBytes. rewrite length_app, Nat2Z.id.
  destruct (Z.ltb_spec (Z.of_nat (length data + length rest)) (Z.of_nat (length data))); [lia|].
  now rewrite take_app_length, drop_app_length.
Qed.

Lemma NextUintLE_app (n : nat) (v : Z) (rest : list byte) :
  0 <= v < 256 ^ Z.of_nat n ->
  NextUintLE (Z.of_nat n) (le_bytes n v ++ rest) = (v, false, rest).
Proof.
  intros Hv. unfold NextUintLE.
  rewrite <- (length_le_bytes n v) at 1. rewrite NextBytes_app.
  now rewrite le_value_le_bytes.
Qed.

Lemma NextUint8_app (v : Z) (rest : list byte) :
  0 <= v < 256 -> NextUint8 (le_bytes 1 v ++ rest) = (v, false, rest).
Proof.
  intros Hv. unfold NextUint8. simpl. rewrite byteToZ_byteOfZ.
  now rewrite Z.mod_small.
Qed.

Lemma NextVarUint_app (n : Z) (rest : list byte) :
  0 <= n < 2 ^ 64 -> NextVarUint (varuint n ++ rest) = (n, false, rest).
Proof.
  intros Hn. unfold varuint, NextVarUint.
  destruct (Z.ltb_spec n 0xFD) as [H1|H1].
  - simpl. rewrite byteToZ_byteOfZ, Z.mod_small by lia.
    destruct (Z.eqb_spec n 0xFD); [lia|].
    destruct (Z.eqb_spec n 0xFE); [lia|].
    destruct (Z.eqb_spec n 0xFF); [lia|]. reflexivity.
  - destruct (Z.leb_spec n 0xFFFF) as [H2|H2];
      [|destruct (Z.leb_spec n 0xFFFFFFFF) as [H3|H3]].
    + cbn [app NextByte]. rewrite byteToZ_byteOfZ. cbn [Z.eqb Z.modulo].
      change (0xFD mod 256 =? 0xFD) with true. cbn iota.
      apply (NextUintLE_app 2). lia.
    + cbn [app NextByte]. rewrite byteToZ_byteOfZ.
      change (0xFE mod 256 =? 0xFD) with false.
      change (0xFE mod 256 =? 0xFE) with true. cbn iota.
      apply (NextUintLE_app 4). lia.
    + cbn [app NextByte]. rewrite byteToZ_byteOfZ.
      change (0xFF mod 256 =? 0xFD) with false.
      change (0xFF mod 256 =? 0xFE) with false.
      change (0xFF mod 256 =? 0xFF) with true. cbn iota.
      apply (NextUintLE_app 8). lia.
Qed.

Lemma NextVarBytes_app (data rest : list byte) :
  Z.of_nat (length data) < 2 ^ 64 ->
  NextVarBytes (varbytes data ++ rest) = (data, false, rest).
Proof.
  intros Hl. unfold NextVarBytes, varbytes. rewrite <- app_assoc.
  rewrite NextVarUint_app by lia. cbn iota. apply NextBytes_app.
Qed.

Lemma NextString_app (s : string) (rest : list byte) :
  Z.of_nat (length (list_byte_of_string s)) < 2 ^ 64 ->
  NextString (varbytes (list_byte_of_string s) ++ rest) = (s, false, rest).
Proof.
  intros Hl. unfold NextString. rewrite NextVarBytes_app by exact Hl.
  now rewrite string_of_list_byte_of_string.
Qed.

(** ** The binary form of the work items *)

Lemma WriteVarBytes_app (data : list byte) (sink : Sink) :
  WriteVarBytes data sink = sink ++ varbytes data.
Proof. unfold WriteVarBytes, WriteVarUint, varbytes. now rewrite app_assoc. Qed.

Lemma WriteString_app (s : string) (sink : Sink) :
  WriteString s sink = sink ++ varbytes (list_byte_of_string s).
Proof. apply WriteVarBytes_app. Qed.

Ltac sink_normal :=
  unfold WriteUint8, WriteUint32, WriteUint64;
  rewrite ?WriteString_app, ?WriteVarBytes_app;
  rewrite <- ?app_assoc; rewrite ?app_nil_l.

Lemma CrossTransfer_roundtrip (ct : CrossTransfer) :
  valid_CrossTransfer ct ->
  CrossTransfer_Deserialization (CrossTransfer_Serialization ct []) = inr ct.
Proof.
  intros (Hi & Hid & Hv & Hc & Hh). destruct ct as [i id v c h].
  cbn [txIndex txId value toChain height] in *.
  unfold CrossTransfer_Serialization, CrossTransfer_Deserialization.
  cbn [txIndex txId value toChain height]. sink_normal.
  rewrite NextString_app by exact Hi. cbn iota.
  rewrite NextVarBytes_app by exact Hid. cbn iota.
  rewrite NextVarBytes_app by exact Hv. cbn iota.
  unfold NextUint32, NextUint64.
  rewrite (NextUintLE_app 4) by (cbn; lia). cbn iota.
  rewrite <- (app_nil_r (le_bytes 8 h)).
  rewrite (NextUintLE_app 8) by (cbn; lia). reflexivity.
Qed.

Section BridgeTransactionFacts.
Context `{Libs}.

Lemma BridgeTransaction_tail_app h p hp a (tx : string) (path : list byte)
    (pay : Z) (f : string) :
  fits_varbytes (list_byte_of_string tx) -> fits_varbytes path ->
  0 <= pay < 2 ^ 8 -> fits_varbytes (list_byte_of_string f) ->
  BridgeTransaction_Deserialization_tail h p hp a
    (varbytes (list_byte_of_string tx) ++ varbytes path ++ le_bytes 1 pay ++
     varbytes (list_byte_of_string f)) =
  inr {| header := h; param := p; headerProof := hp; anchorHeader := a;
         polyTxHash := tx; rawAuditPath := path; hasPay := pay; fee := f |}.
Proof.
  intros Htx Hpath Hpay Hf. unfold BridgeTransaction_Deserialization_tail.
  rewrite NextString_app by exact Htx. cbn iota.
  rewrite NextVarBytes_app by exact Hpath. cbn iota.
  rewrite NextUint8_app by (cbn in Hpay; lia). cbn iota.
  rewrite <- (app_nil_r (varbytes (list_byte_of_string f))).
  rewrite NextString_app by exact Hf. reflexivity.
Qed.

Lemma BridgeTransaction_roundtrip (b : BridgeTransaction) :
  valid_BridgeTransaction b ->
  BridgeTransaction_Deserialization (BridgeTransaction_Serialization b []) =
  inr (without_unpaired_anchor b).
Proof.
  intros (Hh & Hp & Ha & Hhp & Htx & Hpath & Hpay & Hf).
  destruct b as [h p hp a tx path pay f].
  cbn [header param headerProof anchorHeader polyTxHash rawAuditPath hasPay fee] in *.
  unfold BridgeTransaction_Serialization, BridgeTransaction_Deserialization,
    without_unpaired_anchor.
  cbn [header param headerProof anchorHeader polyTxHash rawAuditPath hasPay fee].
  destruct (negb (String.eqb hp "")) eqn:Ehp; [destruct a as [a|]|];
    sink_normal; rewrite Hh, Hp.
  - rewrite NextUint8_app by lia. cbn.
    rewrite NextString_app by exact Hhp. cbn iota.
    rewrite (Ha a eq_refl). now apply BridgeTransaction_tail_app.
  - rewrite NextUint8_app by lia. cbn. now apply BridgeTransaction_tail_app.
  - rewrite NextUint8_app by lia. cbn. now apply BridgeTransaction_tail_app.
Qed.

End BridgeTransactionFacts.
(** ** The sample instance is valid where it should be *)

Lemma Sample_valid_Header (h : Z) :
  0 <= h < 2 ^ 32 -> valid_Header (H := Sample.libs) h.
Proof.
  intros Hh rest.
  change (Sample.decodeHeight (le_bytes 4 h ++ rest) = (None, h, rest)).
  unfold Sample.decodeHeight, NextUint32.
  rewrite (NextUintLE_app 4) by (cbn; lia). reflexivity.
Qed.

Lemma Sample_valid_ToMerkleValue (p : Sample.MerkleValue) :
  fits_varbytes (Sample.mv_TxHash p) -> 0 <= Sample.mv_FromChainID p < 2 ^ 64 ->
  valid_ToMerkleValue (H := Sample.libs) p.
Proof.
  intros Hl Hid rest. destruct p as [tx id].
  cbn [Sample.mv_TxHash Sample.mv_FromChainID] in *.
  change (Sample.decodeMerkleValue ((varbytes tx ++ le_bytes 8 id) ++ rest) =
          (None, {| Sample.mv_TxHash := tx; Sample.mv_FromChainID := id |}, rest)).
  unfold Sample.decodeMerkleValue. rewrite <- app_assoc.
  rewrite NextVarBytes_app by exact Hl. cbn iota. unfold NextUint64.
  rewrite (NextUintLE_app 8) by (cbn; lia). reflexivity.
Qed.

(** ** Serialization round trip *)

(** C3 (amended).  For every BridgeTransaction with valid fields,
    deserializing what [Serialization] wrote gives the item with an
    unpaired proof or anchor dropped: the proof and the anchor header
    are written, behind the presence byte, only when the proof is
    non-empty and the anchor is present, and then the result is the
    item itself, field by field.  For every CrossTransfer with valid
    fields the round trip gives the item itself. *)
Theorem serialization_roundtrip `{Libs}
    (b : BridgeTransaction) (ct : CrossTransfer) :
  valid_BridgeTransaction b ->
  valid_CrossTransfer ct ->
  BridgeTransaction_Deserialization (BridgeTransaction_Serialization b []) =
    inr (without_unpaired_anchor b) /\
  (anchor_paired b = true ->
   BridgeTransaction_Deserialization (BridgeTransaction_Serialization b []) =
     inr b) /\
  CrossTransfer_Deserialization (CrossTransfer_Serialization ct []) = inr ct.
Proof.
  intros Hb Hct. split; [|split].
  - now apply BridgeTransaction_roundtrip.
  - intros Hp. rewrite BridgeTransaction_roundtrip by exact Hb. f_equal.
    unfold anchor_paired, without_unpaired_anchor in *.
    destruct b as [h p hp a tx path pay f]; cbn in *.
    destruct (String.eqb_spec hp ""); destruct a; cbn in *;
      try discriminate; congruence.
  - now apply CrossTransfer_roundtrip.
Qed.

Lemma sample_item_valid : valid_BridgeTransaction Sample.item.
Proof.
  unfold valid_BridgeTransaction, Sample.item, fits_varbytes; cbn.
  unfold FEE_HASPAY, FEE_NOCHECK. repeat split; try lia.
  - apply Sample_valid_Header. lia.
  - apply Sample_valid_ToMerkleValue; unfold fits_varbytes; cbn; lia.
  - intros a [= <-]. apply Sample_valid_Header. lia.
Qed.

Lemma sample_transfer_valid : valid_CrossTransfer Sample.transfer.
Proof. unfold valid_CrossTransfer, Sample.transfer, fits_varbytes; cbn. lia. Qed.

Lemma serialization_roundtrip_witness :
  BridgeTransaction_Deserialization
    (BridgeTransaction_Serialization Sample.item []) = inr Sample.item /\
  CrossTransfer_Deserialization
    (CrossTransfer_Serialization Sample.transfer []) = inr Sample.transfer.
Proof.
  destruct (serialization_roundtrip Sample.item Sample.transfer
              sample_item_valid sample_transfer_valid) as (_ & Hb & Hct).
  split; [apply Hb; reflexivity | exact Hct].
Defined.

Lemma unpaired_item_valid : valid_BridgeTransaction Sample.unpaired_item.
Proof.
  unfold valid_BridgeTransaction, Sample.unpaired_item, fits_varbytes; cbn.
  unfold FEE_HASPAY, FEE_NOCHECK. repeat split; try lia.
  - apply Sample_valid_Header. lia.
  - apply Sample_valid_ToMerkleValue; unfold fits_varbytes; cbn; lia.
  - intros a [= <-]. apply Sample_valid_Header. lia.
Qed.

Lemma roundtrip_loses_unpaired_anchor :
  valid_BridgeTransaction Sample.unpaired_item /\
  BridgeTransaction_Deserialization
    (BridgeTransaction_Serialization Sample.unpaired_item []) <> inr Sample.unpaired_item.
Proof.
  split; [exact unpaired_item_valid|].
  rewrite BridgeTransaction_roundtrip by exact unpaired_item_valid.
  cbn. intros [=].
Qed.

(** ** The starting height of the poly monitor *)

(** C4 (amended).  [init] keeps a positive height given by the flag as
    it is; otherwise the starting height is the larger of the stored
    [polyHeight] and the epoch start height of the ECCD contract, which
    is taken as a uint32 and as zero when the call fails.  [init]
    always reports success. *)
Theorem init_start_height (GetCurEpochStartHeight : string + Z)
    (this : PolyManager) :
  (PolyManager_init GetCurEpochStartHeight this).1 = true /\
  currentHeight (PolyManager_init GetCurEpochStartHeight this).2 =
    (if currentHeight this >? 0 then currentHeight this
     else Z.max (GetPolyHeight (db this))
                (findLatestHeight GetCurEpochStartHeight)) /\
  db (PolyManager_init GetCurEpochStartHeight this).2 = db this /\
  senders (PolyManager_init GetCurEpochStartHeight this).2 = senders this.
Proof.
  unfold PolyManager_init.
  destruct (currentHeight this >? 0) eqn:Hflag; [auto|].
  cbn [currentHeight db senders].
  destruct (Z.gtb_spec (findLatestHeight GetCurEpochStartHeight)
              (GetPolyHeight (db this))) as [Hgt|Hle];
    cbn [fst snd currentHeight db senders]; repeat split; lia.
Qed.

(** With the flag at 5, a stored height of 100 and an epoch start of
    200, the monitor starts at 5, not at the maximum 200. *)
Lemma init_flag_is_not_max :
  currentHeight (PolyManager_init (inr 200) (Sample.manager 5 100)).2 <>
  Z.max (currentHeight (Sample.manager 5 100))
    (Z.max (GetPolyHeight (db (Sample.manager 5 100)))
           (findLatestHeight (inr 200))).
Proof. vm_compute. discriminate. Qed.

(** ** commitHeader *)

Section CommitHeaderFacts.
Context `{Libs}.

(** When packing fails the function does not return at all. *)
Lemma commitHeader_pack_failure (calls : HeaderCalls) (this : EthSender)
    (header : Header) (pubkList : list byte) (gasPrice : Z) (e : string) :
  hc_SuggestGasPrice calls = inr gasPrice ->
  Pack "changeBookKeeper"
    [GetMessage header; pubkList; convertSigs (SigData header)] = inl e ->
  commitHeader calls this header pubkList = Panic "nil pointer dereference".
Proof. intros Hg Hp. unfold commitHeader. now rewrite Hg, Hp. Qed.

(** C10.  [commitHeader] returns false only when something failed
    before the transaction was broadcast: the gas-price fetch, the
    packing, the gas estimation, the signing or [SendTransaction]; no
    confirmation was waited for then.  Once [SendTransaction] has
    succeeded it returns true whatever [waitTransactionConfirm]
    reports, so an unconfirmed epoch change is a success for the
    caller. *)
Theorem commitHeader_true_once_sent (calls : HeaderCalls) (this : EthSender)
    (header : Header) (pubkList : list byte) :
  (forall confirmed,
     commitHeader calls this header pubkList = Done (false, confirmed) ->
     confirmed = None /\
     ((exists e, hc_SuggestGasPrice calls = inl e) \/
      (exists e, Pack "changeBookKeeper"
         [GetMessage header; pubkList; convertSigs (SigData header)] = inl e) \/
      (exists e, hc_EstimateGas calls = inl e) \/
      (exists e, hc_SignTransaction calls = Some e) \/
      (exists e, hc_SendTransaction calls = Some e))) /\
  (forall gasPrice txData gasLimit,
     hc_SuggestGasPrice calls = inr gasPrice ->
     Pack "changeBookKeeper"
       [GetMessage header; pubkList; convertSigs (SigData header)] = inr txData ->
     hc_EstimateGas calls = inr gasLimit ->
     hc_SignTransaction calls = None ->
     hc_SendTransaction calls = None ->
     commitHeader calls this header pubkList =
       Done (true, Some (waitTransactionConfirm (hc_polls calls)))).
Proof.
  split.
  - intros confirmed. unfold commitHeader.
    destruct (hc_SuggestGasPrice calls) as [e|gasPrice]; [intros [= <-]; eauto 6|].
    destruct (Pack _ _) as [e|txData]; [discriminate|].
    destruct (hc_EstimateGas calls) as [e|gasLimit]; [intros [= <-]; eauto 8|].
    destruct (hc_SignTransaction calls) as [e|]; [intros [= <-]; eauto 10|].
    destruct (hc_SendTransaction calls) as [e|]; [intros [= <-]; eauto 10|].
    discriminate.
  - intros gasPrice txData gasLimit Hg Hp He Hs Hsend. unfold commitHeader.
    now rewrite Hg, Hp, He, Hs, Hsend.
Qed.

End CommitHeaderFacts.

Lemma commitHeader_true_once_sent_witness :
  commitHeader (H := Sample.libs) Sample.reverted_header_calls
    (Sample.sender "a") 200 [x01] = Done (true, Some false).
Proof.
  eapply (proj2 (commitHeader_true_once_sent (H := Sample.libs)
                   Sample.reverted_header_calls (Sample.sender "a") 200 [x01]));
    reflexivity.
Defined.

(** ** The gas-limit guard *)

(** The estimate of scenario S4, 400000 / 1.1 rounded up, inflates to
    400000. *)
Example inflateGasLimit_S4 : inflateGasLimit 363637 = 400000.
Proof. reflexivity. Qed.

Section GasGuardFacts.
Context `{Libs}.
Variable ECCMContractAddress : string.

Lemma CheckGasLimit_too_high (hash : string) (limit : Z) :
  limit > 300000 -> exists e, CheckGasLimit hash limit = Some e.
Proof.
  intros Hl. unfold CheckGasLimit.
  destruct (Z.gtb_spec limit 300000); [eauto|lia].
Qed.

(** C6.  When [commitDepositEventsWithHeader] has packed the call and
    got a gas price and an estimate, and the estimate inflated by 1.1
    is above 300000, it returns true and leaves every route of the
    sender as it was: no job is enqueued, so nothing is broadcast.  Its
    caller then deletes the item from the store and from the map. *)
Theorem gas_limit_guard (calls : TickCalls) (sel : MaxFee)
    (db : BoltDB) (bridgeTransactions : gmap string BridgeTransaction)
    (senders : list EthSender) (tx : BridgeTransaction) (i : nat)
    (sender : EthSender) (txData : list byte) (gasPrice estimate : Z) :
  maxFeeOfTransaction sel = Some tx ->
  selectSender (tc_fuel calls) (tc_balances calls) senders = Done i ->
  senders !! i = Some sender ->
  dc_NewEthCrossChainData (tc_deposit calls) = None ->
  32 <= Z.of_nat (length (TxHash (param tx))) ->
  depositTxData (header tx) (headerProof tx) (anchorHeader tx)
    (rawAuditPath tx) = inr txData ->
  dc_SuggestGasPrice (tc_deposit calls) = inr gasPrice ->
  dc_EstimateGas (tc_deposit calls) = inr estimate ->
  inflateGasLimit estimate > 300000 ->
  commitDepositEventsWithHeader ECCMContractAddress (tc_deposit calls) sender
    (header tx) (param tx) (headerProof tx) (anchorHeader tx)
    (EncodeToString (TxHash (param tx))) (rawAuditPath tx) =
    Done (true, sender) /\
  submitMaxFee ECCMContractAddress calls sel (db, bridgeTransactions, senders) =
    Done (DeleteBridgeTransactions (maxFeeOfTxHash sel) db,
          delete (maxFeeOfTxHash sel) bridgeTransactions, senders).
Proof.
  intros Hsel Hsender Hi Heccd Hlen Hpack Hprice Hest Hhigh.
  assert (Hcommit :
    commitDepositEventsWithHeader ECCMContractAddress (tc_deposit calls) sender
      (header tx) (param tx) (headerProof tx) (anchorHeader tx)
      (EncodeToString (TxHash (param tx))) (rawAuditPath tx) =
      Done (true, sender)).
  { unfold commitDepositEventsWithHeader. rewrite Heccd.
    destruct (Z.ltb_spec (Z.of_nat (length (TxHash (param tx)))) 32); [lia|].
    destruct (dc_CheckIfFromChainTxExist _ _ _); [reflexivity|].
    rewrite Hpack, Hprice, Hest.
    destruct (CheckGasLimit_too_high (EncodeToString (TxHash (param tx)))
                (inflateGasLimit estimate) Hhigh) as [e ->].
    reflexivity. }
  split; [exact Hcommit|].
  unfold submitMaxFee. rewrite Hsel, Hsender. cbn [mbind Run_bind bindRun].
  rewrite Hi, Hcommit. cbn [mbind Run_bind bindRun].
  now rewrite list_insert_id.
Qed.

End GasGuardFacts.

(** The estimate of scenario S4 on the sample item: true is returned
    and the sender's routes stay empty. *)
Lemma gas_limit_guard_witness :
  commitDepositEventsWithHeader (H := Sample.libs) "eccm"
    (Sample.deposit_calls 363637) (Sample.sender "a")
    (header Sample.item) (param Sample.item) (headerProof Sample.item)
    (anchorHeader Sample.item)
    (EncodeToString (Libs := Sample.libs) (TxHash (param Sample.item)))
    (rawAuditPath Sample.item) = Done (true, Sample.sender "a").
Proof.
  eapply (proj1 (gas_limit_guard (H := Sample.libs) "eccm"
                   (Sample.tick_calls 363637) Sample.selected_item
                   (Sample.store ∅ 0) ∅ [Sample.sender "a"] Sample.item 0
                   (Sample.sender "a") _ 1 363637
                   eq_refl eq_refl eq_refl eq_refl _ eq_refl eq_refl eq_refl
                   eq_refl)).
  Unshelve. vm_compute. discriminate.
Defined.

(** ** Rolling back to the common ancestor *)

Section RollBackFacts.
Context `{Libs}.
Variable config : Heco.HecoConfig.

Lemma rollBackLoop_found (fuel : nat) (views : Heco.ChainViews) (h : Z) :
  commonAncestor config views h = true ->
  Heco.rollBackLoop config (S fuel) views h = Done h.
Proof.
  unfold commonAncestor. cbn [Heco.rollBackLoop].
  destruct (Heco.GetStorage views _ _) as [e|raw]; [discriminate|].
  destruct (length raw =? 0)%nat; [discriminate|].
  destruct (Heco.HeaderByNumber views _) as [e|hdr]; [discriminate|].
  now intros ->.
Qed.

Lemma rollBackLoop_step (fuel : nat) (views : Heco.ChainViews) (h : Z) :
  commonAncestor config views h = false ->
  hecoAnswers views h ->
  Heco.rollBackLoop config (S fuel) views h =
  Heco.rollBackLoop config fuel views (wrap64 (h - 1)).
Proof.
  unfold commonAncestor, hecoAnswers. cbn [Heco.rollBackLoop].
  intros Hno [hdr Hhdr]. rewrite Hhdr in *.
  destruct (Heco.GetStorage views _ _) as [e|raw]; [reflexivity|].
  destruct (length raw =? 0)%nat; [reflexivity|].
  now rewrite Hno.
Qed.

(** The walk from [h] down to the first agreeing height [h - k]. *)
Lemma rollBackLoop_walk (k : nat) (fuel : nat) (views : Heco.ChainViews)
    (h : Z) :
  0 <= h - Z.of_nat k -> h < 2 ^ 64 ->
  (forall j, h - Z.of_nat k < j <= h -> hecoAnswers views j) ->
  commonAncestor config views (h - Z.of_nat k) = true ->
  (forall j, h - Z.of_nat k < j <= h -> commonAncestor config views j = false) ->
  (k < fuel)%nat ->
  Heco.rollBackLoop config fuel views h = Done (h - Z.of_nat k).
Proof.
  revert fuel h. induction k as [|k IH]; intros fuel h Hlo Hhi Hans Hyes Hno Hfuel.
  - destruct fuel as [|fuel]; [lia|].
    replace (h - Z.of_nat 0) with h in * by lia.
    now apply rollBackLoop_found.
  - destruct fuel as [|fuel]; [lia|].
    rewrite rollBackLoop_step by (first [apply Hno | apply Hans]; lia).
    assert (Hw : wrap64 (h - 1) = h - 1).
    { unfold wrap64. apply Z.mod_small. lia. }
    rewrite Hw.
    replace (h - Z.of_nat (S k)) with (h - 1 - Z.of_nat k) in * by lia.
    apply IH; try lia.
    + intros j Hj. apply Hans. lia.
    + exact Hyes.
    + intros j Hj. apply Hno. lia.
Qed.

(** C5.  When the submission of the headers fails with an error that
    contains "parent header not exist" or "missing required field",
    and the two chains agree at [H - k] but at no height above it up
    to the current height [H] (heco answering for these heights), the
    rollback returns once its walk has made [k] steps down, with
    [currentHeight] at [H - k], the greatest agreeing height at or
    below [H], and with [header4sync] empty; the commit reports 0. *)
Theorem rollback_to_common_ancestor (calls : Heco.SyncCalls)
    (this : Heco.HecoManager) (k : nat) (errDesc : string) :
  Heco.sc_SyncBlockHeader calls = inl errDesc ->
  Contains errDesc "parent header not exist" = true \/
  Contains errDesc "missing required field" = true ->
  0 <= Heco.currentHeight this - Z.of_nat k ->
  Heco.currentHeight this < 2 ^ 64 ->
  commonAncestor config (Heco.sc_views calls)
    (Heco.currentHeight this - Z.of_nat k) = true ->
  (forall j, Heco.currentHeight this - Z.of_nat k < j <= Heco.currentHeight this ->
     commonAncestor config (Heco.sc_views calls) j = false /\
     hecoAnswers (Heco.sc_views calls) j) ->
  (k < Heco.sc_fuel calls)%nat ->
  Heco.commitHecoHeaderToPoly config calls this =
  Done (0, {| Heco.currentHeight := Heco.currentHeight this - Z.of_nat k;
              Heco.header4sync := [];
              Heco.db := Heco.db this |}).
Proof.
  intros Herr Hmatch Hlo Hhi Hyes Hno Hfuel.
  unfold Heco.commitHecoHeaderToPoly. rewrite Herr.
  assert (Hc : Contains errDesc "parent header not exist"
               || Contains errDesc "missing required field" = true).
  { apply orb_true_iff. exact Hmatch. }
  rewrite Hc. unfold Heco.rollBackToCommAncestor.
  rewrite (rollBackLoop_walk k) by (try apply Hno; auto).
  reflexivity.
Qed.

End RollBackFacts.

Lemma SampleFork_keyHeight (h : Z) :
  0 <= h < 2 ^ 64 ->
  SampleFork.keyHeight
    (Heco.mainChainKey (H := Sample.libs) SampleFork.config h) = h.
Proof.
  intros Hh. unfold SampleFork.keyHeight, Heco.mainChainKey, GetUint64Bytes.
  change (drop 17 _) with (le_bytes 8 h).
  apply le_value_le_bytes. cbn. lia.
Qed.

Lemma SampleFork_above (j : Z) :
  1000 < j <= 1050 ->
  commonAncestor (H := Sample.libs) SampleFork.config SampleFork.views j = false /\
  hecoAnswers (H := Sample.libs) SampleFork.views j.
Proof.
  intros Hj. split.
  - unfold commonAncestor. cbn [Heco.GetStorage SampleFork.views].
    rewrite SampleFork_keyHeight by lia.
    destruct (Z.leb_spec j 1000); [lia|]. reflexivity.
  - eexists. reflexivity.
Qed.

(** Scenario S5: from 1050 the rollback ends at 1000 with an empty
    batch. *)
Lemma rollback_to_common_ancestor_witness :
  Heco.commitHecoHeaderToPoly (H := Sample.libs) SampleFork.config
    SampleFork.calls SampleFork.manager =
  Done (0, {| Heco.currentHeight := 1000; Heco.header4sync := [];
              Heco.db := Sample.store ∅ 0 |}).
Proof.
  apply (rollback_to_common_ancestor (H := Sample.libs) SampleFork.config
           SampleFork.calls SampleFork.manager 50
           "SyncBlockHeader, parent header not exist").
  - reflexivity.
  - left. reflexivity.
  - cbn. lia.
  - cbn. lia.
  - vm_compute. reflexivity.
  - exact SampleFork_above.
  - cbn. lia.
Defined.

(** ** selectSender *)

Lemma BigInt_Rand_range (draw n : Z) : 0 < n -> 0 <= BigInt_Rand draw n < n.
Proof.
  intros Hn. unfold BigInt_Rand. destruct (Z.leb_spec n 0); [lia|].
  apply Z.mod_pos_bound. lia.
Qed.

Lemma Balance_retry_answers (fuel : nat) (answers : nat -> string + Z)
    (attempt : nat) (bal : Z) :
  Balance_retry fuel answers attempt = Done bal ->
  exists n, answers n = inr bal.
Proof.
  revert attempt. induction fuel as [|fuel IH]; intros attempt; cbn; [discriminate|].
  destruct (answers attempt) as [e|b] eqn:E.
  - apply IH.
  - intros [= <-]. eauto.
Qed.

Lemma Balance_retry_returns (fuel : nat) (answers : nat -> string + Z)
    (attempt n : nat) (bal : Z) :
  (attempt <= n < attempt + fuel)%nat -> answers n = inr bal ->
  exists bal', Balance_retry fuel answers attempt = Done bal'.
Proof.
  revert attempt. induction fuel as [|fuel IH]; intros attempt Hn Hbal; [lia|].
  cbn. destruct (answers attempt) as [e|b] eqn:E; [|eauto].
  apply IH; [|exact Hbal].
  destruct (decide (n = attempt)) as [->|Hne]; [congruence|lia].
Qed.

Lemma sumBalances_returns (fuel : nat) (calls : BalanceCalls)
    (senders : list EthSender) (i : nat) (sum : Z) :
  (forall j, (j < length senders)%nat ->
     exists n bal, (n < fuel)%nat /\ bc_Balance calls (i + j) n = inr bal) ->
  exists total balArr,
    sumBalances fuel calls i senders sum = Done (total, balArr) /\
    length balArr = length senders.
Proof.
  revert i sum. induction senders as [|v rest IH]; intros i sum Hall.
  - cbn. eauto.
  - cbn [sumBalances].
    destruct (Hall 0%nat) as (n & bal & Hn & Hbal); [cbn; lia|].
    rewrite Nat.add_0_r in Hbal.
    destruct (Balance_retry_returns fuel (bc_Balance calls i) 0 n bal)
      as [bal' ->]; [lia|exact Hbal|].
    cbn [mbind Run_bind bindRun].
    destruct (IH (S i) (sum + bal')) as (total & balArr & -> & Hlen).
    { intros j Hj. destruct (Hall (S j)) as (n' & b' & ? & Hb'); [cbn; lia|].
      exists n', b'. split; [assumption|].
      now replace (S i + j)%nat with (i + S j)%nat by lia. }
    cbn. eexists _, _. split; [reflexivity|]. cbn. now rewrite Hlen.
Qed.

Lemma sumBalances_zero (fuel : nat) (calls : BalanceCalls)
    (senders : list EthSender) (i : nat) (sum total : Z) (balArr : list Z) :
  (forall j n bal, bc_Balance calls j n = inr bal -> bal = 0) ->
  sumBalances fuel calls i senders sum = Done (total, balArr) ->
  total = sum /\ balArr = repeat (BigInt_Int64 sum) (length senders).
Proof.
  intros Hzero. revert i sum total balArr.
  induction senders as [|v rest IH]; intros i sum total balArr.
  - cbn. intros [= <- <-]. auto.
  - cbn [sumBalances].
    destruct (Balance_retry fuel (bc_Balance calls i) 0) as [bal| |] eqn:Eb;
      cbn [mbind Run_bind bindRun]; try discriminate.
    apply Balance_retry_answers in Eb as [n Hn]. apply Hzero in Hn as ->.
    replace (sum + 0) with sum by lia.
    destruct (sumBalances fuel calls (S i) rest sum) as [[t arr]| |] eqn:Es;
      cbn; try discriminate.
    intros [= <- <-]. apply IH in Es as [-> ->]. auto.
Qed.

Lemma firstAtLeast_bound (balArr : list Z) (sample : Z) (i j : nat) :
  firstAtLeast balArr sample i = Some j -> (i <= j < i + length balArr)%nat.
Proof.
  revert i. induction balArr as [|v rest IH]; intros i; cbn; [discriminate|].
  destruct (v >=? sample).
  - intros [= <-]. lia.
  - intros Hf. apply IH in Hf. lia.
Qed.

(** With every balance answered, the sender chosen is one of the list. *)
Lemma selectSender_returns (fuel : nat) (calls : BalanceCalls)
    (senders : list EthSender) :
  senders <> [] ->
  (forall i, (i < length senders)%nat ->
     exists n bal, (n < fuel)%nat /\ bc_Balance calls i n = inr bal) ->
  exists i, selectSender fuel calls senders = Done i /\
            (i < length senders)%nat.
Proof.
  intros Hne Hall.
  destruct (sumBalances_returns fuel calls senders 0 0 Hall)
    as (total & balArr & Hsum & Hlen).
  unfold selectSender. rewrite Hsum. cbn [mbind Run_bind bindRun].
  destruct (firstAtLeast balArr _ 0) as [i|] eqn:Ef.
  - apply firstAtLeast_bound in Ef. exists i. split; [reflexivity|lia].
  - destruct senders as [|v rest]; [congruence|].
    exists 0%nat. split; [reflexivity|cbn; lia].
Qed.

(** C9 (amended).  For a non-empty sender list whose balance queries
    each get an answer within the attempts followed, [selectSender]
    returns, and returns one of the configured senders, whatever the
    balances are.  A positive total gives a sample in [0, total).  When
    every balance is zero the total is zero, the sample is zero, and
    the first sender is returned. *)
Theorem selectSender_returns_sender (fuel : nat) (calls : BalanceCalls)
    (senders : list EthSender) :
  senders <> [] ->
  (forall i, (i < length senders)%nat ->
     exists n bal, (n < fuel)%nat /\ bc_Balance calls i n = inr bal) ->
  (exists i, selectSender fuel calls senders = Done i /\
             (i < length senders)%nat) /\
  (forall total, 0 < total ->
     0 <= BigInt_Rand (bc_draw calls) total < total) /\
  ((forall i n bal, bc_Balance calls i n = inr bal -> bal = 0) ->
   selectSender fuel calls senders = Done 0%nat).
Proof.
  intros Hne Hall.
  destruct (sumBalances_returns fuel calls senders 0 0 Hall)
    as (total & balArr & Hsum & Hlen).
  split; [|split].
  - now apply selectSender_returns.
  - intros t Ht. now apply BigInt_Rand_range.
  - intros Hzero. unfold selectSender. rewrite Hsum.
    cbn [mbind Run_bind bindRun].
    apply (sumBalances_zero _ _ _ _ _ _ _ Hzero) in Hsum as [-> ->].
    destruct senders as [|v rest]; [congruence|]. reflexivity.
Qed.

(** Three senders holding 4, 4 and 4, and a draw of 7: the second
    sender is returned. *)
Lemma selectSender_returns_sender_witness :
  exists i, selectSender 1 (Sample.balance_calls 4 7)
              [Sample.sender "a"; Sample.sender "b"; Sample.sender "c"] =
            Done i /\ (i < 3)%nat.
Proof.
  refine (proj1 (selectSender_returns_sender 1 (Sample.balance_calls 4 7)
                   [Sample.sender "a"; Sample.sender "b"; Sample.sender "c"]
                   _ _)).
  - discriminate.
  - intros i Hi. exists 0%nat, 4. split; [lia|reflexivity].
Defined.

(** Two senders with no balance at all: the sample is not undefined,
    and the first sender is returned. *)
Lemma selectSender_zero_total :
  (forall i n bal,
     bc_Balance (Sample.balance_calls 0 7) i n = inr bal -> bal = 0) /\
  selectSender 1 (Sample.balance_calls 0 7)
    [Sample.sender "a"; Sample.sender "b"] = Done 0%nat.
Proof. split; [intros i n bal [= <-]; reflexivity | reflexivity]. Qed.

(** ** The retry bucket *)

Section RetryFacts.
Context `{Libs}.
Variable config : Heco.HecoConfig.

(** The loop body, by what [commitProof] answered. *)
Lemma handleCachedItem_attempt (calls : Heco.ProofCalls) (refHeight : Z)
    (db : BoltDB) (v : list byte) :
  Heco.handleCachedItem config calls refHeight db v =
  match Heco.proofAttempt config calls refHeight v with
  | None => db
  | Some (inl err) =>
      if Contains err "chooseUtxos, current utxo is not enough" then db
      else if Contains err "tx already done" then DeleteRetry v db
      else db
  | Some (inr txHash) => DeleteRetry v (PutCheck txHash v db)
  end.
Proof.
  unfold Heco.handleCachedItem, Heco.proofAttempt.
  destruct (CrossTransfer_Deserialization v) as [e|crosstx]; [reflexivity|].
  destruct (MappingKeyAt _ _) as [e|keyBytes]; [reflexivity|].
  destruct (refHeight <=? _); [reflexivity|].
  destruct (Heco.pc_GetProof calls _ _) as [e|proof]; reflexivity.
Qed.

Lemma handleCachedItem_retry (calls : Heco.ProofCalls) (refHeight : Z)
    (db : BoltDB) (u : list byte) :
  retry (Heco.handleCachedItem config calls refHeight db u) =
  if Heco.staysInRetry config calls refHeight u then retry db
  else retry db ∖ {[ u ]}.
Proof.
  rewrite handleCachedItem_attempt. unfold Heco.staysInRetry.
  destruct (Heco.proofAttempt config calls refHeight u) as [[err|txHash]|];
    [|reflexivity|reflexivity].
  destruct (Contains err "chooseUtxos, current utxo is not enough");
    [reflexivity|].
  destruct (Contains err "tx already done"); reflexivity.
Qed.

(** After the loop an entry is in the bucket exactly when it was there
    before and its own round, if it had one, left it there. *)
Lemma handleCachedItems_retry (calls : Heco.ProofCalls) (refHeight : Z)
    (l : list (list byte)) (db : BoltDB) (v : list byte) :
  v ∈ retry (foldl (Heco.handleCachedItem config calls refHeight) db l) <->
  v ∈ retry db /\
  (v ∈ l -> Heco.staysInRetry config calls refHeight v = true).
Proof.
  revert db. induction l as [|u l IH]; intros db.
  - cbn. split; [intros Hin; split; [exact Hin|]; intros Hv|tauto].
    now apply elem_of_nil in Hv.
  - cbn [foldl]. rewrite IH, handleCachedItem_retry.
    destruct (Heco.staysInRetry config calls refHeight u) eqn:Eu.
    + split; intros [Hin Hl]; (split; [exact Hin|]).
      * intros [->|Hv]%elem_of_cons; auto.
      * intros Hv. apply Hl. now apply elem_of_cons; right.
    + rewrite elem_of_difference, elem_of_singleton.
      split.
      * intros [[Hin Hne] Hl]. split; [exact Hin|].
        intros [Heq|Hv]%elem_of_cons; [contradiction|auto].
      * intros [Hin Hl]. split; [split; [exact Hin|]|].
        -- intros ->. rewrite Hl in Eu; [discriminate|]. apply elem_of_cons; auto.
        -- intros Hv. apply Hl. now apply elem_of_cons; right.
Qed.

(** C7 (amended).  For an entry [v] of the retry bucket and the answer
    of [commitProof] for it: on an error whose text contains
    "chooseUtxos, current utxo is not enough" the entry is still in
    the bucket after the tick; otherwise, on an error whose text
    contains "tx already done", it is gone from the bucket and its
    round leaves the check bucket as it is; on any other error it is
    still in the bucket; on success it is gone from the bucket and
    its round puts it in the check bucket under the returned hash. *)
Theorem retry_item_classification (calls : Heco.ProofCalls) (refHeight : Z)
    (this : Heco.HecoManager) (v : list byte) :
  v ∈ retry (Heco.db this) ->
  let this' :=
    (Heco.handleCachedLockDepositEvents config calls refHeight this).2 in
  match Heco.proofAttempt config calls refHeight v with
  | Some (inl err) =>
      if Contains err "chooseUtxos, current utxo is not enough"
      then v ∈ retry (Heco.db this')
      else if Contains err "tx already done"
      then (v ∉ retry (Heco.db this')) /\
           (forall db,
              check (Heco.handleCachedItem config calls refHeight db v) = check db)
      else v ∈ retry (Heco.db this')
  | Some (inr txHash) =>
      (v ∉ retry (Heco.db this')) /\
      (forall db,
         check (Heco.handleCachedItem config calls refHeight db v) !! txHash
         = Some v)
  | None => v ∈ retry (Heco.db this')
  end.
Proof.
  intros Hin this'.
  assert (Hafter : v ∈ retry (Heco.db this') <->
                   Heco.staysInRetry config calls refHeight v = true).
  { subst this'. unfold Heco.handleCachedLockDepositEvents, GetAllRetry.
    cbn [snd Heco.db]. rewrite handleCachedItems_retry.
    split; [intros [_ Hl]; apply Hl; now apply elem_of_elements|tauto]. }
  assert (Hcheck : forall db,
    Heco.handleCachedItem config calls refHeight db v =
    match Heco.proofAttempt config calls refHeight v with
    | None => db
    | Some (inl err) =>
        if Contains err "chooseUtxos, current utxo is not enough" then db
        else if Contains err "tx already done" then DeleteRetry v db
        else db
    | Some (inr txHash) => DeleteRetry v (PutCheck txHash v db)
    end) by (intros; apply handleCachedItem_attempt).
  unfold Heco.staysInRetry in Hafter.
  destruct (Heco.proofAttempt config calls refHeight v) as [[err|txHash]|].
  - destruct (Contains err "chooseUtxos, current utxo is not enough");
      [now apply Hafter|].
    destruct (Contains err "tx already done"); [|now apply Hafter].
    split; [intros Hv; apply Hafter in Hv; discriminate|].
    intros db. now rewrite Hcheck.
  - split; [intros Hv; apply Hafter in Hv; discriminate|].
    intros db. rewrite Hcheck. cbn [check DeleteRetry PutCheck].
    apply lookup_insert_eq.
  - now apply Hafter.
Qed.

End RetryFacts.

Lemma SampleRetry_entry_in :
  SampleRetry.entry ∈ retry (Heco.db SampleRetry.manager).
Proof.
  unfold SampleRetry.manager. cbn [Heco.db retry].
  now apply elem_of_singleton.
Qed.

(** Scenario S6: poly answers "tx already done"; the entry leaves the
    retry bucket and no check entry is made. *)
Lemma retry_item_classification_witness :
  (SampleRetry.entry ∉
     retry (Heco.db (Heco.handleCachedLockDepositEvents (H := Sample.libs)
                       SampleFork.config
                       (SampleRetry.failing "ImportOuterTransfer, tx already done")
                       2000 SampleRetry.manager).2)) /\
  (forall db,
     check (Heco.handleCachedItem (H := Sample.libs) SampleFork.config
              (SampleRetry.failing "ImportOuterTransfer, tx already done")
              2000 db SampleRetry.entry) = check db).
Proof.
  refine (retry_item_classification (H := Sample.libs) SampleFork.config
            (SampleRetry.failing "ImportOuterTransfer, tx already done")
            2000 SampleRetry.manager SampleRetry.entry SampleRetry_entry_in).
Defined.

(** An error that contains "current utxo is not enough" without the
    "chooseUtxos, " before it, and "tx already done" as well: the entry
    is deleted, not kept. *)
Lemma utxo_error_entry_deleted :
  let err := "current utxo is not enough; tx already done" in
  Contains err "current utxo is not enough" = true /\
  SampleRetry.entry ∈ retry (Heco.db SampleRetry.manager) /\
  Heco.proofAttempt (H := Sample.libs) SampleFork.config
    (SampleRetry.failing err) 2000 SampleRetry.entry = Some (inl err) /\
  SampleRetry.entry ∉
    retry (Heco.db (Heco.handleCachedLockDepositEvents (H := Sample.libs)
                      SampleFork.config (SampleRetry.failing err)
                      2000 SampleRetry.manager).2).
Proof.
  cbn zeta. split; [reflexivity|]. split; [exact SampleRetry_entry_in|].
  split; [reflexivity|].
  unfold Heco.handleCachedLockDepositEvents, GetAllRetry. cbn [snd Heco.db].
  rewrite handleCachedItems_retry. intros [_ Hstays].
  assert (Hl : SampleRetry.entry ∈ elements (retry (Heco.db SampleRetry.manager)))
    by (apply elem_of_elements; exact SampleRetry_entry_in).
  apply Hstays in Hl. discriminate Hl.
Qed.

(** ** Epoch detection *)

Section IsEpochFacts.
Context `{Libs}.

(** The loop over the keys appends each key to the flat list and each
    address, as varbytes, to the sink. *)
Lemma foldl_keeperStep (keys : list PublicKey) (publickeys : list byte)
    (sink : Sink) :
  foldl keeperStep (publickeys, sink) keys =
  (publickeys ++ flat_keys keys,
   sink ++ flat_map (fun key => varbytes (keeperAddress key)) keys).
Proof.
  revert publickeys sink. induction keys as [|key keys IH]; intros pk sink.
  - cbn. now rewrite !app_nil_r.
  - cbn [foldl]. unfold keeperStep at 2. rewrite IH.
    unfold GetNoCompresskey, GetEthNoCompressKey, flat_keys, keeperAddress.
    rewrite WriteVarBytes_app. cbn [flat_map]. now rewrite <- !app_assoc.
Qed.

Lemma length_flat_map_const {A B} (f : A -> list B) (c : nat) (l : list A) :
  (forall x, length (f x) = c) ->
  length (flat_map f l) = (c * length l)%nat.
Proof.
  intros Hc. induction l as [|x l IH]; cbn; [lia|].
  rewrite length_app, Hc, IH. lia.
Qed.

Lemma length_varuint (n : Z) :
  length (varuint n) = 1%nat \/ length (varuint n) = 3%nat \/
  length (varuint n) = 5%nat \/ (length (varuint n) = 9%nat /\ 0xFFFFFFFF < n).
Proof.
  unfold varuint. destruct (Z.ltb_spec n 0xFD); [now left|].
  destruct (Z.leb_spec n 0xFFFF); [right; now left|].
  destruct (Z.leb_spec n 0xFFFFFFFF); [right; right; now left|].
  right; right; right. split; [reflexivity|lia].
Qed.

(** With 32-byte hashes, the wire form of the specification is never
    the one the code compares with. *)
Lemma wire_forms_differ (keys : list PublicKey) :
  (forall data, length (Keccak256 data) = 32%nat) ->
  spec_keeper_wire_form keys <> keeper_wire_form keys.
Proof.
  intros Hk Heq. apply (f_equal length) in Heq.
  unfold spec_keeper_wire_form, keeper_wire_form in Heq.
  rewrite !length_app, length_le_bytes in Heq.
  rewrite (length_flat_map_const _ 20) in Heq
    by (intros; unfold keeperAddress; rewrite length_drop, Hk; reflexivity).
  rewrite (length_flat_map_const _ 21) in Heq.
  2:{ intros key. unfold varbytes, keeperAddress.
      rewrite length_app, length_drop, Hk.
      reflexivity. }
  destruct (length_varuint (Z.of_nat (length keys)))
    as [Hl|[Hl|[Hl|[Hl Hbig]]]]; lia.
Qed.

(** C2 (amended).  For a header whose consensus payload decodes:
    when [nextBookkeeper] is the empty address or there is no
    [newChainConfig], [IsEpoch] returns (false, empty).  Otherwise,
    when heco reports [rawKeepers] and every peer id decodes to a
    public key, the keeper wire form is the number of keys as a
    little-endian uint64 followed by, for each key in sorted order,
    [keccak256(uncompressedPubKey[1:])[12:]] written as varbytes;
    [IsEpoch] returns (false, empty) when this equals [rawKeepers] and
    otherwise (true, the concatenation of the sorted uncompressed keys
    without their leading 0x04 byte). *)
Theorem IsEpoch_keeper_wire_form (calls : EpochCalls) (hdr : Header)
    (blkInfo : VbftBlockInfo) :
  Unmarshal (ConsensusPayload hdr) = inr blkInfo ->
  (NextBookkeeper hdr = ADDRESS_EMPTY \/ NewChainConfig blkInfo = None ->
   IsEpoch calls hdr = Done (false, [], None)) /\
  (forall cfg rawKeepers keys,
     NextBookkeeper hdr <> ADDRESS_EMPTY ->
     NewChainConfig blkInfo = Some cfg ->
     ec_NewEthCrossChainData calls = None ->
     ec_GetCurEpochConPubKeyBytes calls = inr rawKeepers ->
     mapM id (peerKeys (Peers cfg)) = Some keys ->
     IsEpoch calls hdr =
     Done (if bool_decide (rawKeepers = keeper_wire_form (SortPublicKeys keys))
           then (false, [], None)
           else (true, flat_keys (SortPublicKeys keys), None))).
Proof.
  intros Hjson. split.
  - intros Hnone. unfold IsEpoch. rewrite Hjson.
    destruct Hnone as [Hempty|Hcfg].
    + rewrite bool_decide_eq_true_2 by exact Hempty. reflexivity.
    + rewrite Hcfg. now destruct (bool_decide _).
  - intros cfg rawKeepers keys Hnext Hcfg Heccd Hraw Hkeys.
    unfold IsEpoch. rewrite Hjson, Hcfg.
    rewrite bool_decide_eq_false_2 by exact Hnext.
    rewrite Heccd, Hraw, Hkeys, foldl_keeperStep.
    unfold WriteUint64, keeper_wire_form, keeperAddress. cbn [app].
    destruct (bool_decide _); reflexivity.
Qed.

End IsEpochFacts.

(** Heco reports the wire form the code computes for the key of the
    header at 200: no new epoch. *)
Lemma IsEpoch_keeper_wire_form_witness :
  IsEpoch (H := Sample.libs)
    (Sample.epoch_calls
       (keeper_wire_form (H := Sample.libs) [Sample.epoch_key])) 200 =
  Done (false, [], None).
Proof.
  refine (proj2 (IsEpoch_keeper_wire_form (H := Sample.libs)
                   (Sample.epoch_calls
                      (keeper_wire_form (H := Sample.libs) [Sample.epoch_key]))
                   200 _ eq_refl)
            _ _ [Sample.epoch_key] _ eq_refl eq_refl eq_refl eq_refl).
  vm_compute. discriminate.
Defined.

(** Heco reports the wire form of the specification for that key,
    [varuint(1)] and the 20-byte hash: [IsEpoch] still says new epoch. *)
Lemma IsEpoch_spec_wire_form_is_new_epoch :
  mapM id (peerKeys (H := Sample.libs)
             [ {| Index := 1; ID := string_of_list_byte [x04; x2a] |} ])
    = Some [Sample.epoch_key] /\
  IsEpoch (H := Sample.libs)
    (Sample.epoch_calls
       (spec_keeper_wire_form (H := Sample.libs) [Sample.epoch_key])) 200 =
  Done (true, [x2a], None).
Proof. split; reflexivity. Qed.

(** ** One tick of the poly-to-heco relay *)

Section RelayFacts.
Context `{Libs}.
Variable ECCMContractAddress : string.

(** *** What deserializes is storable *)

Lemma NextVarUint_range (src : Source) (n : Z) (r : Source) :
  NextVarUint src = (n, false, r) -> 0 <= n < 2 ^ 64.
Proof.
  unfold NextVarUint, NextByte. destruct src as [|fb src]; [discriminate|].
  cbn iota.
  assert (Hle : forall w, (w <= 8)%nat ->
            NextUintLE (Z.of_nat w) src = (n, false, r) -> 0 <= n < 2 ^ 64).
  { intros w Hw. unfold NextUintLE, NextBytes.
    destruct (Z.of_nat (length src) <? Z.of_nat w) eqn:E; [discriminate|].
    intros [= <- _]. rewrite Nat2Z.id.
    pose proof (le_value_range (take w src)) as Hr.
    rewrite length_take in Hr.
    assert (256 ^ Z.of_nat (w `min` length src) <= 256 ^ 8)
      by (apply Z.pow_le_mono_r; lia).
    change (2 ^ 64) with (256 ^ 8). lia. }
  destruct (byteToZ fb =? 0xFD); [apply (Hle 2%nat); lia|].
  destruct (byteToZ fb =? 0xFE); [apply (Hle 4%nat); lia|].
  destruct (byteToZ fb =? 0xFF); [apply (Hle 8%nat); lia|].
  intros [= <- _]. pose proof (byteToZ_range fb). lia.
Qed.

Lemma NextVarBytes_fits (src : Source) (data : list byte) (r : Source) :
  NextVarBytes src = (data, false, r) -> fits_varbytes data.
Proof.
  unfold NextVarBytes. destruct (NextVarUint src) as [[count eof] r'] eqn:E.
  destruct eof; [discriminate|]. apply NextVarUint_range in E.
  unfold NextBytes. destruct (Z.ltb_spec (Z.of_nat (length r')) count);
    [discriminate|].
  intros [= <- _]. unfold fits_varbytes. rewrite length_take. lia.
Qed.

Lemma NextString_fits (src : Source) (s : string) (r : Source) :
  NextString src = (s, false, r) -> fits_varbytes (list_byte_of_string s).
Proof.
  unfold NextString. destruct (NextVarBytes src) as [[val eof] r'] eqn:E.
  intros [= <- -> _]. rewrite list_byte_of_string_of_list_byte.
  now apply NextVarBytes_fits in E.
Qed.

Lemma NextUint8_range (src : Source) (v : Z) (r : Source) :
  NextUint8 src = (v, false, r) -> 0 <= v < 2 ^ 8.
Proof.
  unfold NextUint8, NextByte. destruct src as [|b src]; [discriminate|].
  intros [= <- _]. pose proof (byteToZ_range b). lia.
Qed.

Lemma Deserialization_tail_storable h p hp a (src : Source)
    (b : BridgeTransaction) :
  frames_Header h -> frames_ToMerkleValue p ->
  (forall a', a = Some a' -> frames_Header a') ->
  fits_varbytes (list_byte_of_string hp) ->
  BridgeTransaction_Deserialization_tail h p hp a src = inr b ->
  storable b.
Proof.
  intros Hh Hp Ha Hhp. unfold BridgeTransaction_Deserialization_tail.
  destruct (NextString src) as [[tx eof1] s1] eqn:E1.
  destruct eof1; [discriminate|].
  destruct (NextVarBytes s1) as [[path eof2] s2] eqn:E2.
  destruct eof2; [discriminate|].
  destruct (NextUint8 s2) as [[pay eof3] s3] eqn:E3.
  destruct eof3; [discriminate|].
  destruct (NextString s3) as [[f eof4] s4] eqn:E4.
  destruct eof4; [discriminate|].
  intros [= <-]. unfold storable. cbn.
  apply NextString_fits in E1. apply NextVarBytes_fits in E2.
  apply NextUint8_range in E3. auto 10.
Qed.

Lemma Deserialization_storable (v : list byte) (b : BridgeTransaction) :
  codecs_reencode ->
  BridgeTransaction_Deserialization v = inr b -> storable b.
Proof.
  intros [Hhdr Hmv]. unfold BridgeTransaction_Deserialization.
  pose proof (Hhdr v) as Hh.
  destruct (Header_decode v) as [[e1 h] s1]. destruct e1; [discriminate|].
  destruct (ToMerkleValue_decode s1) as [[e2 p] s2] eqn:Ep.
  destruct e2; [discriminate|]. apply Hmv in Ep.
  destruct (NextUint8 s2) as [[anchor eof] s3]. destruct eof; [discriminate|].
  destruct (anchor =? 1).
  - destruct (NextString s3) as [[hp eof] s4] eqn:E. destruct eof; [discriminate|].
    pose proof (Hhdr s4) as Ha.
    destruct (Header_decode s4) as [[e3 a] s5].
    apply Deserialization_tail_storable; auto.
    + now intros a' [= <-].
    + now apply NextString_fits in E.
  - apply Deserialization_tail_storable; auto.
    + discriminate.
    + unfold fits_varbytes. cbn. lia.
Qed.

(** What is read back from a stored item has the [hasPay] that was
    written. *)
Lemma Deserialization_Serialization_hasPay (b b' : BridgeTransaction) :
  storable b ->
  BridgeTransaction_Deserialization (BridgeTransaction_Serialization b []) =
    inr b' ->
  hasPay b' = hasPay b.
Proof.
  intros (Hh & Hp & Ha & Hhp & Htx & Hpath & Hpay).
  destruct b as [h p hp a tx path pay f].
  cbn [header param headerProof anchorHeader polyTxHash rawAuditPath hasPay fee] in *.
  assert (Htail : forall h0 p0 hp' a',
    BridgeTransaction_Deserialization_tail h0 p0 hp' a'
      (varbytes (list_byte_of_string tx) ++ varbytes path ++ le_bytes 1 pay ++
       varbytes (list_byte_of_string f)) = inr b' -> hasPay b' = pay).
  { intros h0 p0 hp' a'. unfold BridgeTransaction_Deserialization_tail.
    rewrite NextString_app by exact Htx. cbn iota.
    rewrite NextVarBytes_app by exact Hpath. cbn iota.
    rewrite NextUint8_app by (cbn in Hpay; lia). cbn iota.
    destruct (NextString _) as [[f' eof] s']. destruct eof; [discriminate|].
    now intros [= <-]. }
  unfold BridgeTransaction_Serialization, BridgeTransaction_Deserialization.
  cbn [header param headerProof anchorHeader polyTxHash rawAuditPath hasPay fee].
  destruct (negb (String.eqb hp "")) eqn:Ehp; [destruct a as [a|]|];
    sink_normal;
    match goal with
    | |- context [Header_decode (Header_encode h ++ ?r)] =>
        destruct (Hh r) as [h' ->]
    end;
    match goal with
    | |- context [ToMerkleValue_decode (ToMerkleValue_encode p ++ ?r)] =>
        destruct (Hp r) as [p' ->]
    end.
  - rewrite NextUint8_app by lia. cbn.
    rewrite NextString_app by exact Hhp. cbn iota.
    match goal with
    | |- context [Header_decode (Header_encode a ++ ?r)] =>
        destruct (Ha a eq_refl r) as [a' ->]
    end.
    apply Htail.
  - rewrite NextUint8_app by lia. cbn. apply Htail.
  - rewrite NextUint8_app by lia. cbn. apply Htail.
Qed.

(** *** The loops of the tick *)

Lemma range_elem_of range (m : gmap string BridgeTransaction) k v :
  range_ok range -> ((k, v) ∈ range m <-> m !! k = Some v).
Proof. intros Hr. rewrite (Hr m). apply elem_of_map_to_list. Qed.

Lemma range_NoDup range (m : gmap string BridgeTransaction) :
  range_ok range -> NoDup (range m).*1.
Proof. intros Hr. rewrite (Hr m). apply NoDup_fst_map_to_list. Qed.

Lemma elem_of_notPayKeys (visited : list (string * BridgeTransaction)) k :
  k ∈ notPayKeys visited <->
  exists v, (k, v) ∈ visited /\ hasPay v = FEE_NOTPAY.
Proof.
  unfold notPayKeys. rewrite list_elem_of_fmap. split.
  - intros ([k' v] & -> & Hin). apply list_elem_of_filter in Hin as [Hpay Hin].
    eauto.
  - intros (v & Hin & Hpay). exists (k, v). split; [reflexivity|].
    apply list_elem_of_filter. auto.
Qed.

(** The drop loop deletes the keys marked NOTPAY, from store and map
    alike, and nothing else. *)
Lemma foldl_dropNotPay (visited : list (string * BridgeTransaction))
    (db : BoltDB) (m : gmap string BridgeTransaction) (k : string) :
  bridge_transactions (foldl dropNotPay (db, m) visited).1 !! k =
    (if decide (k ∈ notPayKeys visited) then None
     else bridge_transactions db !! k) /\
  (foldl dropNotPay (db, m) visited).2 !! k =
    (if decide (k ∈ notPayKeys visited) then None else m !! k).
Proof.
  revert db m. induction visited as [|[k' v] l IH]; intros db m.
  - cbn. split; reflexivity.
  - cbn [foldl]. unfold dropNotPay at 2 4. unfold notPayKeys in *.
    destruct (Z.eqb_spec (hasPay v) FEE_NOTPAY) as [Hpay|Hpay].
    + rewrite filter_cons_True by exact Hpay. cbn [fmap list_fmap fst].
      destruct (IH (DeleteBridgeTransactions k' db) (delete k' m)) as [IH1 IH2].
      rewrite IH1, IH2. cbn [bridge_transactions DeleteBridgeTransactions].
      destruct (decide (k = k')) as [->|Hne].
      * rewrite !lookup_delete_eq.
        split; (rewrite (decide_True (P := k' ∈ k' :: _))
                  by (apply elem_of_cons; auto));
          destruct (decide _); reflexivity.
      * rewrite !lookup_delete_ne by congruence.
        destruct (decide (k ∈ _)) as [Hin|Hnin].
        -- split; (rewrite decide_True by (apply elem_of_cons; auto));
             reflexivity.
        -- split;
             (rewrite decide_False
                by (intros [Heq|Hin]%elem_of_cons; [congruence|contradiction]));
             reflexivity.
    + rewrite filter_cons_False by exact Hpay. apply IH.
Qed.

(** The persist loop writes every visited item under its key and
    leaves the other keys alone. *)
Lemma foldl_persist (visited : list (string * BridgeTransaction))
    (db : BoltDB) (k : string) :
  NoDup visited.*1 ->
  (forall v, (k, v) ∈ visited ->
     bridge_transactions (foldl persist db visited) !! k =
     Some (BridgeTransaction_Serialization v [])) /\
  (k ∉ visited.*1 ->
     bridge_transactions (foldl persist db visited) !! k =
     bridge_transactions db !! k).
Proof.
  revert db. induction visited as [|[k' v'] l IH]; intros db Hnd.
  - cbn. split; [intros v Hin; now apply elem_of_nil in Hin|reflexivity].
  - cbn [fmap list_fmap fst] in Hnd. apply NoDup_cons in Hnd as [Hk' Hnd].
    cbn [foldl]. destruct (IH (persist db (k', v')) Hnd) as [IHin IHout].
    split.
    + intros v [Heq|Hin]%elem_of_cons.
      * injection Heq as Hk Hv. subst k' v'.
        etransitivity; [apply IHout; exact Hk'|].
        unfold persist. cbn. apply lookup_insert_eq.
      * now apply IHin.
    + intros Hout. cbn [fmap list_fmap fst] in Hout.
      apply not_elem_of_cons in Hout as [Hne Hout].
      etransitivity; [apply IHout; exact Hout|]. unfold persist. cbn.
      now apply lookup_insert_ne.
Qed.

(** The submission leaves store and map as they are or deletes the
    selected key from both. *)
Lemma submitMaxFee_result (calls : TickCalls) (sel : MaxFee)
    (db db' : BoltDB) (m m' : gmap string BridgeTransaction)
    (senders senders' : list EthSender) :
  submitMaxFee ECCMContractAddress calls sel (db, m, senders) =
    Done (db', m', senders') ->
  (db' = db /\ m' = m) \/
  (is_Some (maxFeeOfTransaction sel) /\
   db' = DeleteBridgeTransactions (maxFeeOfTxHash sel) db /\
   m' = delete (maxFeeOfTxHash sel) m).
Proof.
  unfold submitMaxFee. destruct (maxFeeOfTransaction sel) as [tx|].
  2:{ intros [= <- <- <-]. auto. }
  destruct (selectSender _ _ _) as [i| |]; cbn [mbind Run_bind bindRun];
    try discriminate.
  destruct (senders !! i) as [sender|]; [|discriminate].
  destruct (commitDepositEventsWithHeader _ _ _ _ _ _ _ _ _)
    as [[res sender']| |]; cbn [mbind Run_bind bindRun]; try discriminate.
  destruct res; intros [= <- <- <-]; eauto.
Qed.

(** The answers of the bridge change [hasPay] and [fee] of items in
    the map; they add and remove no key and keep items storable. *)
Lemma applyCheckFee_keys (m : gmap string BridgeTransaction)
    (rsp : CheckFeeRsp) (k : string) :
  applyCheckFee m rsp !! k = None <-> m !! k = None.
Proof.
  unfold applyCheckFee. destruct (negb _); [reflexivity|].
  destruct (m !! Hash rsp) as [item|] eqn:E; [|reflexivity].
  assert (Hins : forall b, <[Hash rsp := b]> m !! k = None <-> m !! k = None).
  { intros b. destruct (decide (Hash rsp = k)) as [<-|Hne].
    - rewrite lookup_insert_eq, E. split; discriminate.
    - now rewrite lookup_insert_ne. }
  repeat destruct (_ =? _); auto; reflexivity.
Qed.

Lemma applyCheckFee_Forall (P : BridgeTransaction -> Prop)
    (m : gmap string BridgeTransaction) (rsp : CheckFeeRsp) :
  (forall b amount, P b -> P (set_paid b amount)) ->
  (forall b, P b -> P (set_notpay b)) ->
  map_Forall (fun _ b => P b) m ->
  map_Forall (fun _ b => P b) (applyCheckFee m rsp).
Proof.
  intros Hpaid Hnot Hm. unfold applyCheckFee. destruct (negb _); [exact Hm|].
  destruct (m !! Hash rsp) as [item|] eqn:E; [|exact Hm].
  assert (Hitem : P item) by (exact (Hm _ _ E)).
  repeat destruct (_ =? _); try exact Hm; apply map_Forall_insert_2; auto.
Qed.

Lemma markFees_keys (calls : TickCalls) (m : gmap string BridgeTransaction)
    (k : string) :
  markFees calls m !! k = None <-> m !! k = None.
Proof.
  unfold markFees. destruct (0 <? _)%nat; [|reflexivity].
  destruct (tc_checkFee calls _) as [rsps|]; [|reflexivity].
  revert m. induction rsps as [|rsp rsps IH]; intros m; [reflexivity|].
  cbn [foldl]. rewrite IH. apply applyCheckFee_keys.
Qed.

Lemma markFees_keys_None (calls : TickCalls)
    (m : gmap string BridgeTransaction) (k : string) :
  m !! k = None -> markFees calls m !! k = None.
Proof. apply markFees_keys. Qed.

Lemma markFees_Forall (P : BridgeTransaction -> Prop) (calls : TickCalls)
    (m : gmap string BridgeTransaction) :
  (forall b amount, P b -> P (set_paid b amount)) ->
  (forall b, P b -> P (set_notpay b)) ->
  map_Forall (fun _ b => P b) m ->
  map_Forall (fun _ b => P b) (markFees calls m).
Proof.
  intros Hpaid Hnot. unfold markFees. destruct (0 <? _)%nat; [|auto].
  destruct (tc_checkFee calls _) as [rsps|]; [|auto].
  revert m. induction rsps as [|rsp rsps IH]; intros m Hm; [exact Hm|].
  cbn [foldl]. apply IH. now apply applyCheckFee_Forall.
Qed.

Lemma markFees_storable (calls : TickCalls)
    (m : gmap string BridgeTransaction) :
  map_Forall (fun _ b => storable b) m ->
  map_Forall (fun _ b => storable b) (markFees calls m).
Proof.
  apply markFees_Forall.
  - intros b amount (? & ? & ? & ? & ? & ? & ?).
    unfold storable, set_paid, FEE_HASPAY. cbn. repeat split; auto; lia.
  - intros b (? & ? & ? & ? & ? & ? & ?).
    unfold storable, set_notpay, FEE_NOTPAY. cbn. repeat split; auto; lia.
Qed.

Lemma loadBridgeTransactions_lookup (retryList : gmap string (list byte))
    (k : string) :
  loadBridgeTransactions retryList !! k =
  match retryList !! k with
  | None => None
  | Some v => match BridgeTransaction_Deserialization v with
              | inr b => Some b
              | inl _ => None
              end
  end.
Proof.
  unfold loadBridgeTransactions. rewrite lookup_omap. unfold Source.
  destruct (retryList !! k); reflexivity.
Qed.

Lemma loadBridgeTransactions_storable (retryList : gmap string (list byte)) :
  codecs_reencode ->
  map_Forall (fun _ b => storable b) (loadBridgeTransactions retryList).
Proof.
  intros Hcodec k b. rewrite loadBridgeTransactions_lookup.
  destruct (retryList !! k) as [v|]; [|discriminate].
  destruct (BridgeTransaction_Deserialization v) as [e|b'] eqn:E; [discriminate|].
  intros [= <-]. now apply Deserialization_storable in E.
Qed.

(** The selection returns an item it has visited, under its key. *)
Lemma foldl_selectMaxFee_visited (visited : list (string * BridgeTransaction))
    (st : MaxFee) (v : BridgeTransaction) :
  maxFeeOfTransaction (foldl selectMaxFee st visited) = Some v ->
  (maxFeeOfTxHash (foldl selectMaxFee st visited), v) ∈ visited \/
  (maxFeeOfTransaction st = Some v /\
   maxFeeOfTxHash (foldl selectMaxFee st visited) = maxFeeOfTxHash st).
Proof.
  revert st. induction visited as [|[k b] l IH]; intros st Hsel.
  - right. auto.
  - cbn [foldl] in *. destruct (IH _ Hsel) as [Hin|[Hst Hk]].
    + left. now apply elem_of_cons; right.
    + rewrite Hk. unfold selectMaxFee in *.
      destruct (SetString (fee b)) as [f|]; [|right; auto].
      destruct (_ || _); [|right; auto].
      cbn in *. injection Hst as ->. left. apply elem_of_cons. auto.
Qed.

(** *** The store after a tick

    With [marked] the loaded items after the fee check: a key that was
    not loaded is untouched; a loaded key is gone when its item is
    marked NOTPAY or when it is the one key the submission removed,
    and holds the item written back otherwise. *)
Lemma handleLockDepositEvents_store (calls : TickCalls) (this this' : PolyManager)
    (err : option string) :
  range_ok (tc_range calls) ->
  handleLockDepositEvents ECCMContractAddress calls this = Done (err, this') ->
  exists removed : list string,
    (length removed <= 1)%nat /\
    (forall k, k ∈ removed ->
       exists b, markFees calls
                   (loadBridgeTransactions (bridge_transactions (db this))) !! k
                 = Some b /\ hasPay b <> FEE_NOTPAY) /\
    forall k,
      bridge_transactions (db this') !! k =
      match markFees calls
              (loadBridgeTransactions (bridge_transactions (db this))) !! k with
      | None => bridge_transactions (db this) !! k
      | Some b =>
          if decide (hasPay b = FEE_NOTPAY) then None
          else if decide (k ∈ removed) then None
          else Some (BridgeTransaction_Serialization b [])
      end.
Proof.
  intros Hrange. unfold handleLockDepositEvents, GetAllBridgeTransactions.
  destruct (size (bridge_transactions (db this)) =? 0)%nat eqn:Esize.
  { intros [= <- <-]. exists []. split; [cbn; lia|].
    split; [intros k Hk; now apply elem_of_nil in Hk|]. intros k.
    apply Nat.eqb_eq, map_size_empty_iff in Esize.
    rewrite markFees_keys_None; [reflexivity|].
    rewrite loadBridgeTransactions_lookup, Esize. now rewrite lookup_empty. }
  set (marked := markFees calls
                   (loadBridgeTransactions (bridge_transactions (db this)))).
  pose proof (fun k => foldl_dropNotPay (tc_range calls marked) (db this) marked k)
    as Hdrop.
  destruct (foldl dropNotPay (db this, marked) (tc_range calls marked))
    as [db1 m2] eqn:Edrop.
  cbn [fst snd] in Hdrop.
  set (sel := foldl selectMaxFee MaxFee_start (tc_range calls m2)).
  destruct (submitMaxFee ECCMContractAddress calls sel (db1, m2, senders this))
    as [[[db2 m3] senders']| |] eqn:Esub; cbn [mbind Run_bind bindRun];
    try discriminate.
  intros [= <- <-]. cbn [db].
  pose proof (fun k => foldl_persist (tc_range calls m3) db2 k
                         (range_NoDup _ m3 Hrange)) as Hpersist.
  assert (Hm2 : forall k, m2 !! k =
            match marked !! k with
            | Some b => if decide (hasPay b = FEE_NOTPAY) then None else Some b
            | None => None
            end).
  { intros k. destruct (Hdrop k) as [_ ->].
    destruct (marked !! k) as [b|] eqn:Eb.
    - destruct (decide (hasPay b = FEE_NOTPAY)) as [Hpay|Hpay].
      + rewrite decide_True; [reflexivity|]. apply elem_of_notPayKeys.
        exists b. split; [now apply range_elem_of|exact Hpay].
      + rewrite decide_False; [reflexivity|]. intros Hin.
        apply elem_of_notPayKeys in Hin as (v & Hv & Hpv).
        apply range_elem_of in Hv; [|exact Hrange]. congruence.
    - now destruct (decide _). }
  assert (Hdb1 : forall k, bridge_transactions db1 !! k =
            match marked !! k with
            | Some b => if decide (hasPay b = FEE_NOTPAY) then None
                        else bridge_transactions (db this) !! k
            | None => bridge_transactions (db this) !! k
            end).
  { intros k. destruct (Hdrop k) as [-> _].
    destruct (marked !! k) as [b|] eqn:Eb.
    - destruct (decide (hasPay b = FEE_NOTPAY)) as [Hpay|Hpay].
      + rewrite decide_True; [reflexivity|]. apply elem_of_notPayKeys.
        exists b. split; [now apply range_elem_of|exact Hpay].
      + rewrite decide_False; [reflexivity|]. intros Hin.
        apply elem_of_notPayKeys in Hin as (v & Hv & Hpv).
        apply range_elem_of in Hv; [|exact Hrange]. congruence.
    - rewrite decide_False; [reflexivity|]. intros Hin.
      apply elem_of_notPayKeys in Hin as (v & Hv & Hpv).
      apply range_elem_of in Hv; [|exact Hrange]. congruence. }
  assert (Hfinal : forall k, bridge_transactions
                     (foldl persist db2 (tc_range calls m3)) !! k =
            match m3 !! k with
            | Some b => Some (BridgeTransaction_Serialization b [])
            | None => bridge_transactions db2 !! k
            end).
  { intros k. destruct (Hpersist k) as [Hin Hout].
    destruct (m3 !! k) as [b|] eqn:Eb.
    - apply Hin. now apply range_elem_of.
    - apply Hout. intros Hk. apply list_elem_of_fmap in Hk as ([k' v] & -> & Hv).
      apply range_elem_of in Hv; [|exact Hrange]. cbn in Eb. congruence. }
  apply submitMaxFee_result in Esub as [[-> ->]|(Hsome & -> & ->)].
  - exists []. split; [cbn; lia|].
    split; [intros k Hk; now apply elem_of_nil in Hk|]. intros k.
    rewrite Hfinal, Hm2, Hdb1. destruct (marked !! k) as [b|]; [|reflexivity].
    destruct (decide (hasPay b = FEE_NOTPAY)); [reflexivity|].
    rewrite decide_False; [reflexivity|]. apply not_elem_of_nil.
  - exists [maxFeeOfTxHash sel]. split; [cbn; lia|].
    destruct Hsome as [tx Htx].
    assert (Hvisited : m2 !! maxFeeOfTxHash sel = Some tx).
    { subst sel. destruct (foldl_selectMaxFee_visited _ _ _ Htx) as [Hin|[Hst _]].
      - now apply range_elem_of in Hin.
      - discriminate Hst. }
    split.
    { intros k ->%list_elem_of_singleton. rewrite Hm2 in Hvisited.
      destruct (marked !! maxFeeOfTxHash sel) as [b|]; [|discriminate].
      destruct (decide (hasPay b = FEE_NOTPAY)); [discriminate|]. eauto. }
    intros k. rewrite Hfinal.
    cbn [bridge_transactions DeleteBridgeTransactions].
    destruct (decide (k = maxFeeOfTxHash sel)) as [->|Hne].
    + rewrite !lookup_delete_eq. rewrite Hm2 in Hvisited.
      destruct (marked !! maxFeeOfTxHash sel) as [b|]; [|discriminate].
      destruct (decide (hasPay b = FEE_NOTPAY)); [reflexivity|].
      rewrite decide_True; [reflexivity|]. apply list_elem_of_singleton.
      reflexivity.
    + rewrite !lookup_delete_ne by congruence. rewrite Hm2, Hdb1.
      destruct (marked !! k) as [b|]; [|reflexivity].
      destruct (decide (hasPay b = FEE_NOTPAY)); [reflexivity|].
      rewrite decide_False; [reflexivity|].
      intros Hk%list_elem_of_singleton. congruence.
Qed.

(** *** A tick returns

    It does when there is a sender, every balance is answered within
    the attempts followed, the ECCD binding is made, and the source
    hash of every item in the store has its 32 bytes. *)

Lemma commitDepositEventsWithHeader_returns (calls : DepositCalls)
    (this : EthSender) (tx : BridgeTransaction) :
  dc_NewEthCrossChainData calls = None ->
  32 <= Z.of_nat (length (TxHash (param tx))) ->
  exists res this',
    commitDepositEventsWithHeader ECCMContractAddress calls this
      (header tx) (param tx) (headerProof tx) (anchorHeader tx)
      (EncodeToString (TxHash (param tx))) (rawAuditPath tx) =
    Done (res, this').
Proof.
  intros Heccd Hlen. unfold commitDepositEventsWithHeader. rewrite Heccd.
  destruct (Z.ltb_spec (Z.of_nat (length (TxHash (param tx)))) 32); [lia|].
  destruct (dc_CheckIfFromChainTxExist _ _ _); [eauto|].
  destruct (depositTxData _ _ _ _); [eauto|].
  destruct (dc_SuggestGasPrice calls); [eauto|].
  destruct (dc_EstimateGas calls); [eauto|].
  destruct (CheckGasLimit _ _); eauto.
Qed.

Lemma handleLockDepositEvents_returns (calls : TickCalls) (this : PolyManager) :
  range_ok (tc_range calls) ->
  senders this <> [] ->
  (forall i, (i < length (senders this))%nat ->
     exists n bal, (n < tc_fuel calls)%nat /\
                   bc_Balance (tc_balances calls) i n = inr bal) ->
  dc_NewEthCrossChainData (tc_deposit calls) = None ->
  (forall k v b,
     bridge_transactions (db this) !! k = Some v ->
     BridgeTransaction_Deserialization v = inr b ->
     32 <= Z.of_nat (length (TxHash (param b)))) ->
  exists this',
    handleLockDepositEvents ECCMContractAddress calls this = Done (None, this').
Proof.
  intros Hrange Hne Hbal Heccd Hhash.
  unfold handleLockDepositEvents, GetAllBridgeTransactions.
  destruct (size (bridge_transactions (db this)) =? 0)%nat; [eauto|].
  set (marked := markFees calls
                   (loadBridgeTransactions (bridge_transactions (db this)))).
  assert (Hmarked : map_Forall
            (fun _ b => 32 <= Z.of_nat (length (TxHash (param b)))) marked).
  { apply (markFees_Forall
             (fun b => 32 <= Z.of_nat (length (TxHash (param b))))); auto.
    intros k b. rewrite loadBridgeTransactions_lookup.
    destruct (bridge_transactions (db this) !! k) as [v|] eqn:Ev; [|discriminate].
    destruct (BridgeTransaction_Deserialization v) as [e|b'] eqn:Eb;
      [discriminate|].
    intros [= <-]. eauto. }
  pose proof (fun k => foldl_dropNotPay (tc_range calls marked) (db this) marked k)
    as Hdrop.
  destruct (foldl dropNotPay (db this, marked) (tc_range calls marked))
    as [db1 m2].
  cbn [fst snd] in Hdrop.
  set (sel := foldl selectMaxFee MaxFee_start (tc_range calls m2)).
  assert (Hsub : exists st',
    submitMaxFee ECCMContractAddress calls sel (db1, m2, senders this) = Done st').
  { unfold submitMaxFee.
    destruct (maxFeeOfTransaction sel) as [tx|] eqn:Etx; [|eauto].
    destruct (selectSender_returns (tc_fuel calls) (tc_balances calls)
                (senders this) Hne Hbal) as (i & -> & Hi).
    cbn [mbind Run_bind bindRun].
    destruct (lookup_lt_is_Some_2 (senders this) i Hi) as [sender ->].
    assert (Hlen : 32 <= Z.of_nat (length (TxHash (param tx)))).
    { subst sel. destruct (foldl_selectMaxFee_visited _ _ _ Etx) as [Hin|[Hst _]];
        [|discriminate Hst].
      apply range_elem_of in Hin; [|exact Hrange].
      destruct (Hdrop (maxFeeOfTxHash
                  (foldl selectMaxFee MaxFee_start (tc_range calls m2))))
        as [_ Hm2].
      rewrite Hin in Hm2. destruct (decide _); [discriminate|].
      symmetry in Hm2. exact (Hmarked _ _ Hm2). }
    destruct (commitDepositEventsWithHeader_returns (tc_deposit calls) sender tx
                Heccd Hlen) as (res & sender' & ->).
    cbn [mbind Run_bind bindRun]. destruct res; eauto. }
  destruct Hsub as [[[db2 m3] senders'] ->]. cbn [mbind Run_bind bindRun].
  eauto.
Qed.

End RelayFacts.
(** ** Fee gating *)

Section FeeGatingFacts.
Context `{Libs}.
Variable ECCMContractAddress : string.

(** C8.  After a tick that completes, whatever in the store
    deserializes as a BridgeTransaction has [hasPay] other than
    NOTPAY: every item the fee check left marked NOTPAY is gone from
    the store, and it was dropped before the selection, so it is not
    the item submitted.  At most one key is removed on account of the
    submission: every stored key that is gone is either that one key,
    whose item is not marked NOTPAY, or the key of an item marked
    NOTPAY.  (The [range] of the model visits every entry once, and
    the library codecs serialize in frame what they deserialize.) *)
Theorem fee_gating (calls : TickCalls) (this this' : PolyManager)
    (err : option string) :
  range_ok (tc_range calls) ->
  codecs_reencode ->
  handleLockDepositEvents ECCMContractAddress calls this = Done (err, this') ->
  let marked :=
    markFees calls (loadBridgeTransactions (bridge_transactions (db this))) in
  (forall k v b,
     bridge_transactions (db this') !! k = Some v ->
     BridgeTransaction_Deserialization v = inr b ->
     hasPay b <> FEE_NOTPAY) /\
  (forall k b,
     marked !! k = Some b -> hasPay b = FEE_NOTPAY ->
     bridge_transactions (db this') !! k = None) /\
  (exists removed : list string,
     (length removed <= 1)%nat /\
     (forall k, k ∈ removed ->
        exists b, marked !! k = Some b /\ hasPay b <> FEE_NOTPAY) /\
     (forall k,
        is_Some (bridge_transactions (db this) !! k) ->
        bridge_transactions (db this') !! k = None ->
        k ∈ removed \/
        exists b, marked !! k = Some b /\ hasPay b = FEE_NOTPAY)).
Proof.
  intros Hrange Hcodec Htick marked.
  destruct (handleLockDepositEvents_store ECCMContractAddress calls this this'
              err Hrange Htick) as (removed & Hlen & Hremoved & Hstore).
  fold marked in Hremoved, Hstore. unfold Sink, Source in *.
  assert (Hstorable : map_Forall (fun _ b => storable b) marked).
  { apply markFees_storable, loadBridgeTransactions_storable, Hcodec. }
  split; [|split].
  - intros k v b Hv Hb. rewrite Hstore in Hv.
    destruct (marked !! k) as [item|] eqn:Eitem.
    + destruct (decide (hasPay item = FEE_NOTPAY)) as [|Hpay]; [discriminate|].
      destruct (decide (k ∈ removed)); [discriminate|].
      injection Hv as <-.
      apply Deserialization_Serialization_hasPay in Hb;
        [congruence|exact (Hstorable _ _ Eitem)].
    + subst marked. apply markFees_keys in Eitem.
      rewrite loadBridgeTransactions_lookup in Eitem.
      destruct (bridge_transactions (db this) !! k) as [v0|] eqn:Ev0;
        [|discriminate].
      injection Hv as ->. now rewrite Hb in Eitem.
  - intros k b Hb Hpay. rewrite Hstore, Hb. now rewrite decide_True.
  - exists removed. split; [exact Hlen|]. split; [exact Hremoved|].
    intros k [v0 Hv0] Hgone. rewrite Hstore in Hgone.
    destruct (marked !! k) as [item|];
      [|rewrite Hv0 in Hgone; discriminate].
    destruct (decide (hasPay item = FEE_NOTPAY)); [right; eauto|].
    destruct (decide (k ∈ removed)); [left; assumption|discriminate].
Qed.

End FeeGatingFacts.

Lemma Sample_codecs_reencode : codecs_reencode (H := Sample.libs).
Proof.
  split.
  - intros source rest. set (h := (Header_decode _).1.2). clearbody h.
    exists (le_value (le_bytes 4 h)).
    change (Sample.decodeHeight (le_bytes 4 h ++ rest) =
            (None, le_value (le_bytes 4 h), rest)).
    unfold Sample.decodeHeight, NextUint32, NextUintLE.
    change 4 with (Z.of_nat (length (le_bytes 4 h))).
    now rewrite NextBytes_app.
  - intros source [tx id] rest0. cbn [ToMerkleValue_decode Sample.libs].
    unfold Sample.decodeMerkleValue.
    destruct (NextVarBytes source) as [[tx' eof] s1] eqn:E.
    destruct eof; [discriminate|].
    destruct (NextUint64 s1) as [[id' eof'] s2]. destruct eof'; [discriminate|].
    intros [= <- <- <-]. apply NextVarBytes_fits in E. intros rest.
    exists {| Sample.mv_TxHash := tx'; Sample.mv_FromChainID := le_value (le_bytes 8 id') |}.
    change (Sample.decodeMerkleValue ((varbytes tx' ++ le_bytes 8 id') ++ rest) =
            (None, {| Sample.mv_TxHash := tx';
                      Sample.mv_FromChainID := le_value (le_bytes 8 id') |}, rest)).
    unfold Sample.decodeMerkleValue. rewrite <- app_assoc.
    rewrite NextVarBytes_app by exact E. cbn iota.
    unfold NextUint64, NextUintLE.
    change 8 with (Z.of_nat (length (le_bytes 8 id'))).
    now rewrite NextBytes_app.
Qed.

Lemma Sample_range_ok : range_ok (H := Sample.libs) map_to_list.
Proof. intros m. reflexivity. Qed.

(** The sample queue under a bridge that answers "not paid": the
    tick returns, and the item it marked NOTPAY is gone from the store. *)
Lemma fee_gating_witness :
  bridge_transactions
    (db (Sample.after_tick Sample.notpay_calls
           (Sample.relay_manager Sample.queue))) !! "aa" = None.
Proof.
  assert (Htick :
    handleLockDepositEvents (H := Sample.libs) "eccm" Sample.notpay_calls
      (Sample.relay_manager Sample.queue) =
    Done (None, Sample.after_tick Sample.notpay_calls
                  (Sample.relay_manager Sample.queue)))
    by (vm_compute; reflexivity).
  pose proof (fee_gating (H := Sample.libs) "eccm" Sample.notpay_calls
                (Sample.relay_manager Sample.queue) _ None
                Sample_range_ok Sample_codecs_reencode Htick) as Hgate.
  cbv zeta in Hgate. destruct Hgate as (_ & Hgone & _).
  apply (Hgone "aa" (set_notpay Sample.unchecked_item)); reflexivity.
Defined.

(** ** Highest-fee selection *)

Section SelectionFacts.
Context `{Libs}.

(** A paid item with a readable fee replaces whatever was selected
    before it, so the paid item visited last is the one selected, be
    its fee high or low. *)
Lemma selectMaxFee_paid (st : MaxFee) (k : string) (v : BridgeTransaction)
    (f : Q) :
  hasPay v = FEE_HASPAY -> SetString (fee v) = Some f ->
  selectMaxFee st (k, v) =
  {| maxFee := f; maxFeeOfTransaction := Some v; maxFeeOfTxHash := k |}.
Proof.
  intros Hpay Hfee. unfold selectMaxFee. rewrite Hfee, Hpay. reflexivity.
Qed.

Lemma foldl_selectMaxFee_last_paid
    (visited : list (string * BridgeTransaction)) (k : string)
    (v : BridgeTransaction) (f : Q) :
  hasPay v = FEE_HASPAY -> SetString (fee v) = Some f ->
  foldl selectMaxFee MaxFee_start (visited ++ [(k, v)]) =
  {| maxFee := f; maxFeeOfTransaction := Some v; maxFeeOfTxHash := k |}.
Proof.
  intros Hpay Hfee. rewrite foldl_app. cbn [foldl].
  now apply selectMaxFee_paid.
Qed.

End SelectionFacts.

(** C1, at the failing input.  The store holds two paid items, "bb"
    with fee 1 and "cc" with fee 2, and the [range] of the selection
    loop visits "cc" first.  The loop selects "bb", the item with the
    lower fee; the tick submits it, the one job sent carries its hash,
    and it is "bb" that leaves the store while the item with fee 2
    stays. *)
Theorem lower_fee_item_submitted :
  let this := Sample.relay_manager Sample.paid_queue in
  let calls := Sample.tick_calls 90000 in
  let visited :=
    tc_range calls (loadBridgeTransactions (H := Sample.libs) Sample.paid_queue) in
  let sel := foldl (selectMaxFee (H := Sample.libs)) MaxFee_start visited in
  visited = [("cc", Sample.fee2_item); ("bb", Sample.fee1_item)] /\
  SetString (Libs := Sample.libs) (fee Sample.fee1_item) = Some 1%Q /\
  SetString (Libs := Sample.libs) (fee Sample.fee2_item) = Some 2%Q /\
  maxFeeOfTransaction sel = Some Sample.fee1_item /\
  maxFeeOfTxHash sel = "bb" /\
  bridge_transactions (db (Sample.after_tick calls this)) !! "bb" = None /\
  bridge_transactions (db (Sample.after_tick calls this)) !! "cc" =
    Some (BridgeTransaction_Serialization Sample.fee2_item []) /\
  info_polyTxHash <$> Sample.jobs_sent (Sample.after_tick calls this) =
    [EncodeToString (Libs := Sample.libs) (TxHash (param Sample.fee1_item))].
Proof. cbn zeta. repeat split; reflexivity. Qed.

(** * Further properties

    ** HecoManager: start height *)

Section HecoInitFacts.
Context `{Libs}.
Variable config : Heco.HecoConfig.
Variable CURRENT_HEADER_HEIGHT : list byte.
Variable BlockConfig : Z.

Lemma findLastestHeight_range (views : Heco.ChainViews) (latest : Z) :
  HecoScan.findLastestHeight config CURRENT_HEADER_HEIGHT views = Done latest ->
  0 <= latest < 2 ^ 64.
Proof.
  unfold HecoScan.findLastestHeight, HecoScan.LittleEndian_Uint64.
  destruct (Heco.GetStorage views _ _) as [e|result]; [intros [= <-]; lia|].
  destruct (length result =? 0)%nat; [intros [= <-]; lia|].
  destruct (length result <? 8)%nat eqn:E; [discriminate|].
  intros [= <-]. apply Nat.ltb_ge in E.
  pose proof (le_value_range (take 8 result)) as Hr.
  rewrite length_take, Nat.min_l in Hr by lia.
  change (256 ^ Z.of_nat 8) with (2 ^ 64) in Hr. exact Hr.
Qed.

(** X1.  [init] fails exactly when poly has no synced height for the
    side chain (the storage answers an error, nothing, or zero), and
    then leaves the manager as it is.  Otherwise it succeeds with a
    start height that is positive and not above the synced height:
    the forced height when that is positive and below the synced
    height, else the synced height less [BlockConfig] when that is
    positive, else the synced height.  The height the manager was
    created with plays no part in it. *)
Theorem HecoManager_init_height (forceHeight : Z) (views : Heco.ChainViews)
    (this : Heco.HecoManager) (latest : Z) :
  0 <= BlockConfig ->
  HecoScan.findLastestHeight config CURRENT_HEADER_HEIGHT views = Done latest ->
  (latest = 0 ->
   exists e, HecoScan.HecoManager_init config CURRENT_HEADER_HEIGHT BlockConfig
               forceHeight views this = Done (Some e, this)) /\
  (latest <> 0 ->
   exists start,
     (forall created,
        HecoScan.HecoManager_init config CURRENT_HEADER_HEIGHT BlockConfig
          forceHeight views
          {| Heco.currentHeight := created;
             Heco.header4sync := Heco.header4sync this;
             Heco.db := Heco.db this |} =
        Done (None, {| Heco.currentHeight := start;
                       Heco.header4sync := Heco.header4sync this;
                       Heco.db := Heco.db this |})) /\
     0 < start <= latest /\
     (0 < forceHeight < latest -> start = forceHeight) /\
     (~ 0 < forceHeight < latest -> BlockConfig < latest ->
      start = latest - BlockConfig) /\
     (~ 0 < forceHeight < latest -> latest <= BlockConfig -> start = latest)).
Proof.
  intros Hcfg Hlatest. pose proof (findLastestHeight_range _ _ Hlatest) as Hr.
  unfold HecoScan.HecoManager_init. rewrite Hlatest.
  cbn [mbind Run_bind bindRun]. split.
  - intros ->. cbn. eauto.
  - intros Hne. destruct (Z.eqb_spec latest 0) as [|_]; [contradiction|].
    eexists. split; [intros created; cbn [Heco.header4sync Heco.db]; reflexivity|].
    destruct (Z.gtb_spec forceHeight 0) as [Hf|Hf];
      destruct (Z.ltb_spec forceHeight latest) as [Hl|Hl]; cbn [andb];
      destruct (Z.gtb_spec latest BlockConfig) as [Hb|Hb];
      unfold wrap64; rewrite ?Z.mod_small by lia;
      repeat split; intros; lia.
Qed.

End HecoInitFacts.

(** Synced height 1000, no forced height, [BlockConfig] 20: the scan
    starts at 980 whatever height the manager was created with. *)
Lemma HecoManager_init_height_witness :
  HecoScan.HecoManager_init (H := Sample.libs) SampleFork.config
    SampleScan.CURRENT_HEADER_HEIGHT 20 0 SampleScan.views
    {| Heco.currentHeight := 5; Heco.header4sync := [];
       Heco.db := Sample.store ∅ 0 |} =
  Done (None, {| Heco.currentHeight := 980; Heco.header4sync := [];
                 Heco.db := Sample.store ∅ 0 |}).
Proof.
  assert (Hcfg : 0 <= 20) by lia.
  assert (Hlatest :
    HecoScan.findLastestHeight (H := Sample.libs) SampleFork.config
      SampleScan.CURRENT_HEADER_HEIGHT SampleScan.views = Done 1000)
    by reflexivity.
  destruct (proj2 (HecoManager_init_height (H := Sample.libs) SampleFork.config
                     SampleScan.CURRENT_HEADER_HEIGHT 20 0 SampleScan.views
                     {| Heco.currentHeight := 5; Heco.header4sync := [];
                        Heco.db := Sample.store ∅ 0 |} 1000 Hcfg Hlatest))
    as (start & Hinit & _ & _ & Hsub & _); [lia|].
  rewrite (Hsub ltac:(lia) ltac:(lia)) in Hinit. exact (Hinit 5).
Defined.

(** ** HecoManager: header capture *)

Section HeaderCaptureFacts.
Context `{Libs}.
Variable config : Heco.HecoConfig.
Variable MarshalJSON : EthHeader -> list byte.

(** X2.  [handleBlockHeader] reports failure and changes nothing when
    heco does not give the header.  When it does, the call succeeds,
    and the raw header is appended to [header4sync] exactly when the
    two chains do not agree at that height, that is when poly records
    no hash for it or another one; the batch is never shortened or
    reordered, and height and store stay as they are. *)
Theorem handleBlockHeader_queues_unless_agreed (views : Heco.ChainViews)
    (height : Z) (this : Heco.HecoManager) :
  (forall e, Heco.HeaderByNumber views (toInt64 height) = inl e ->
     HecoScan.handleBlockHeader config MarshalJSON views height this =
     (false, this)) /\
  (forall hdr, Heco.HeaderByNumber views (toInt64 height) = inr hdr ->
     HecoScan.handleBlockHeader config MarshalJSON views height this =
     (true, {| Heco.currentHeight := Heco.currentHeight this;
               Heco.header4sync :=
                 Heco.header4sync this ++
                 (if commonAncestor config views height then []
                  else [MarshalJSON hdr]);
               Heco.db := Heco.db this |})).
Proof.
  unfold HecoScan.handleBlockHeader, commonAncestor. split.
  - intros e ->. reflexivity.
  - intros hdr ->.
    destruct (Heco.GetStorage views _ _) as [e|raw]; [reflexivity|].
    destruct (length raw =? 0)%nat eqn:El; [reflexivity|]. cbn [orb].
    destruct (decide (raw = EthHeader_Hash hdr)) as [Heq|Hne].
    + rewrite (bool_decide_eq_true_2 _ Heq).
      rewrite (bool_decide_eq_true_2 (EthHeader_Hash hdr = raw))
        by congruence.
      cbn [negb]. rewrite app_nil_r. now destruct this.
    + rewrite (bool_decide_eq_false_2 _ Hne).
      rewrite (bool_decide_eq_false_2 (EthHeader_Hash hdr = raw))
        by congruence.
      reflexivity.
Qed.

End HeaderCaptureFacts.

(** In the sample fork the header at 1001 is queued and the one at
    1000, where the chains agree, is not. *)
Lemma handleBlockHeader_queues_unless_agreed_witness :
  HecoScan.handleBlockHeader (H := Sample.libs) SampleFork.config
    (fun hdr => hdr) SampleFork.views 1001 SampleFork.manager =
  (true, {| Heco.currentHeight := 1050;
            Heco.header4sync := [[x0a]; [x0b]; [x02]];
            Heco.db := Sample.store ∅ 0 |}) /\
  HecoScan.handleBlockHeader (H := Sample.libs) SampleFork.config
    (fun hdr => hdr) SampleFork.views 1000 SampleFork.manager =
  (true, {| Heco.currentHeight := 1050;
            Heco.header4sync := [[x0a]; [x0b]];
            Heco.db := Sample.store ∅ 0 |}).
Proof.
  split.
  - exact (proj2 (handleBlockHeader_queues_unless_agreed (H := Sample.libs)
                    SampleFork.config (fun hdr => hdr) SampleFork.views 1001
                    SampleFork.manager) [x02] eq_refl).
  - exact (proj2 (handleBlockHeader_queues_unless_agreed (H := Sample.libs)
                    SampleFork.config (fun hdr => hdr) SampleFork.views 1000
                    SampleFork.manager) [x01] eq_refl).
Defined.

(** ** HecoManager: the check bucket *)

Lemma bucket_range_elem_of range (m : gmap string (list byte)) k v :
  HecoScan.bucket_range_ok range -> ((k, v) ∈ range m <-> m !! k = Some v).
Proof. intros Hr. rewrite (Hr m). apply elem_of_map_to_list. Qed.

Lemma bucket_range_NoDup range (m : gmap string (list byte)) :
  HecoScan.bucket_range_ok range -> NoDup (range m).*1.
Proof. intros Hr. rewrite (Hr m). apply NoDup_fst_map_to_list. Qed.

Lemma checkEntry_other (ev : HecoScan.EventAnswer) (db : BoltDB)
    (kv : string * list byte) :
  bridge_transactions (HecoScan.checkEntry ev db kv) = bridge_transactions db /\
  polyHeight (HecoScan.checkEntry ev db kv) = polyHeight db.
Proof.
  destruct kv as [k v]. unfold HecoScan.checkEntry.
  destruct (ev k) as [e|[state|]]; [auto| |auto].
  destruct (negb (state =? 1)); auto.
Qed.

Lemma foldl_checkEntry_other (ev : HecoScan.EventAnswer)
    (l : list (string * list byte)) (db : BoltDB) :
  bridge_transactions (foldl (HecoScan.checkEntry ev) db l) =
    bridge_transactions db /\
  polyHeight (foldl (HecoScan.checkEntry ev) db l) = polyHeight db.
Proof.
  revert db. induction l as [|kv l IH]; intros db; [auto|].
  cbn [foldl]. destruct (IH (HecoScan.checkEntry ev db kv)) as [-> ->].
  apply checkEntry_other.
Qed.

(** A visited key is removed from the bucket when poly knows its
    event; every other key keeps its entry. *)
Lemma foldl_checkEntry_check (ev : HecoScan.EventAnswer)
    (l : list (string * list byte)) (db : BoltDB) (k : string) :
  check (foldl (HecoScan.checkEntry ev) db l) !! k =
  if decide (k ∈ l.*1 /\ HecoScan.eventSettled ev k = true) then None
  else check db !! k.
Proof.
  revert db. induction l as [|[k' v'] l IH]; intros db.
  - cbn. rewrite decide_False; [reflexivity|].
    intros [Hin _]. now apply elem_of_nil in Hin.
  - cbn [foldl]. rewrite IH. cbn [fmap list_fmap fst].
    assert (Hstep : check (HecoScan.checkEntry ev db (k', v')) !! k =
              if decide (k = k' /\ HecoScan.eventSettled ev k = true)
              then None else check db !! k).
    { unfold HecoScan.checkEntry, HecoScan.eventSettled.
      destruct (decide (k = k')) as [->|Hne].
      - destruct (ev k') as [e|[state|]].
        + rewrite decide_False by (intros [_ ?]; discriminate). reflexivity.
        + rewrite decide_True by auto.
          destruct (negb (state =? 1)); cbn; apply lookup_delete_eq.
        + rewrite decide_False by (intros [_ ?]; discriminate). reflexivity.
      - rewrite decide_False by (intros [? _]; contradiction).
        destruct (ev k') as [e|[state|]]; [reflexivity| |reflexivity].
        destruct (negb (state =? 1)); cbn; now apply lookup_delete_ne. }
    rewrite Hstep.
    destruct (decide (k ∈ l.*1 /\ HecoScan.eventSettled ev k = true))
      as [[Hin Hs]|Hno].
    + rewrite decide_True; [reflexivity|]. split; [|exact Hs].
      apply elem_of_cons. auto.
    + destruct (decide (k = k' /\ HecoScan.eventSettled ev k = true))
        as [[-> Hs]|Hno'].
      * rewrite decide_True; [reflexivity|]. split; [|exact Hs].
        apply elem_of_cons. auto.
      * rewrite decide_False; [reflexivity|].
        intros [[->|Hin]%elem_of_cons Hs]; [apply Hno'|apply Hno]; auto.
Qed.

(** The retry bucket gains the entries of the visited keys whose poly
    transaction failed, and loses nothing. *)
Lemma foldl_checkEntry_retry (ev : HecoScan.EventAnswer)
    (l : list (string * list byte)) (db : BoltDB) (u : list byte) :
  u ∈ retry (foldl (HecoScan.checkEntry ev) db l) <->
  u ∈ retry db \/
  exists k, (k, u) ∈ l /\ HecoScan.eventFailed ev k = true.
Proof.
  revert db. induction l as [|[k' v'] l IH]; intros db.
  - cbn. split; [auto|]. intros [Hin|(k & Hin & _)]; [exact Hin|].
    now apply elem_of_nil in Hin.
  - cbn [foldl]. rewrite IH.
    assert (Hstep : u ∈ retry (HecoScan.checkEntry ev db (k', v')) <->
              u ∈ retry db \/ (u = v' /\ HecoScan.eventFailed ev k' = true)).
    { unfold HecoScan.checkEntry, HecoScan.eventFailed.
      destruct (ev k') as [e|[state|]].
      - split; [auto|]. intros [?|[_ ?]]; [assumption|discriminate].
      - destruct (negb (state =? 1)); cbn [retry DeleteCheck PutRetry].
        + rewrite elem_of_union, elem_of_singleton. tauto.
        + split; [auto|]. intros [?|[_ ?]]; [assumption|discriminate].
      - split; [auto|]. intros [?|[_ ?]]; [assumption|discriminate]. }
    rewrite Hstep. split.
    + intros [[Hin|[-> Hf]]|(k & Hin & Hf)].
      * now left.
      * right. exists k'. split; [apply elem_of_cons; auto|exact Hf].
      * right. exists k. split; [apply elem_of_cons; auto|exact Hf].
    + intros [Hin|(k & [Heq|Hin]%elem_of_cons & Hf)].
      * left. now left.
      * injection Heq as -> ->. left. right. auto.
      * right. eauto.
Qed.

(** X3.  One scan of the check bucket loses no transfer.  An entry
    whose poly event is not available yet (an error, or no event)
    stays in the check bucket; an entry whose event is there leaves
    the check bucket, and when the state of the event is not success
    its transfer is back in the retry bucket.  The retry bucket gains
    exactly the transfers of the failed entries and loses none, no
    check entry appears, and the bridge-transactions bucket is not
    touched. *)
Theorem checkLockDepositEvents_conserves
    (GetSmartContractEvent : HecoScan.EventAnswer)
    (range : gmap string (list byte) -> list (string * list byte))
    (this : Heco.HecoManager) :
  HecoScan.bucket_range_ok range ->
  let this' :=
    (HecoScan.checkLockDepositEvents GetSmartContractEvent range this).2 in
  (forall k v, check (Heco.db this) !! k = Some v ->
     match GetSmartContractEvent k with
     | inr (Some state) =>
         check (Heco.db this') !! k = None /\
         (state <> 1 -> v ∈ retry (Heco.db this'))
     | _ => check (Heco.db this') !! k = Some v
     end) /\
  (forall k, check (Heco.db this) !! k = None ->
     check (Heco.db this') !! k = None) /\
  (forall u, u ∈ retry (Heco.db this') <->
     u ∈ retry (Heco.db this) \/
     exists k state, check (Heco.db this) !! k = Some u /\
                     GetSmartContractEvent k = inr (Some state) /\
                     state <> 1) /\
  bridge_transactions (Heco.db this') = bridge_transactions (Heco.db this).
Proof.
  intros Hrange this'. subst this'.
  unfold HecoScan.checkLockDepositEvents, GetAllCheck. cbn [snd Heco.db].
  set (l := range (check (Heco.db this))).
  assert (Hl : forall k v, (k, v) ∈ l <-> check (Heco.db this) !! k = Some v)
    by (intros; now apply bucket_range_elem_of).
  assert (Hkeys : forall k, k ∈ l.*1 <-> is_Some (check (Heco.db this) !! k)).
  { intros k. rewrite list_elem_of_fmap. split.
    - intros ([k' v] & -> & Hin). apply Hl in Hin. eauto.
    - intros [v Hv]. exists (k, v). split; [reflexivity|now apply Hl]. }
  assert (Hretry : forall u,
    u ∈ retry (foldl (HecoScan.checkEntry GetSmartContractEvent)
                 (Heco.db this) l) <->
    u ∈ retry (Heco.db this) \/
    exists k state, check (Heco.db this) !! k = Some u /\
                    GetSmartContractEvent k = inr (Some state) /\ state <> 1).
  { intros u. rewrite foldl_checkEntry_retry. unfold HecoScan.eventFailed.
    split; (intros [Hin|Hex]; [now left|right]).
    - destruct Hex as (k & Hin & Hf). apply Hl in Hin.
      destruct (GetSmartContractEvent k) as [e|[state|]] eqn:Ev;
        try discriminate.
      exists k, state. split; [exact Hin|]. split; [exact Ev|].
      intros ->. discriminate.
    - destruct Hex as (k & state & Hin & Hev & Hst). exists k.
      split; [now apply Hl|]. rewrite Hev.
      destruct (Z.eqb_spec state 1); [contradiction|reflexivity]. }
  split; [|split; [|split]].
  - intros k v Hv. rewrite foldl_checkEntry_check. unfold HecoScan.eventSettled.
    destruct (GetSmartContractEvent k) as [e|[state|]] eqn:Ev.
    + rewrite decide_False by (intros [_ ?]; discriminate). exact Hv.
    + rewrite decide_True by (split; [apply Hkeys; eauto|reflexivity]).
      split; [reflexivity|]. intros Hst. apply Hretry. right. eauto.
    + rewrite decide_False by (intros [_ ?]; discriminate). exact Hv.
  - intros k Hk. rewrite foldl_checkEntry_check. now destruct (decide _).
  - exact Hretry.
  - apply foldl_checkEntry_other.
Qed.

(** The sample check bucket: the failed transfer "f1" goes back to
    retry, and the unknown one "f3" stays in check. *)
Lemma checkLockDepositEvents_conserves_witness :
  (check (Heco.db (HecoScan.checkLockDepositEvents SampleScan.events
                     map_to_list SampleScan.checking).2) !! "f1" = None /\
   (0 <> 1 ->
    [x01] ∈ retry (Heco.db (HecoScan.checkLockDepositEvents SampleScan.events
                              map_to_list SampleScan.checking).2))) /\
  check (Heco.db (HecoScan.checkLockDepositEvents SampleScan.events
                    map_to_list SampleScan.checking).2) !! "f3" = Some [x03].
Proof.
  assert (Hrange : HecoScan.bucket_range_ok map_to_list)
    by (intros m; reflexivity).
  pose proof (checkLockDepositEvents_conserves
                SampleScan.events map_to_list SampleScan.checking Hrange)
    as Hc.
  cbv zeta in Hc. destruct Hc as (Hentry & _).
  split.
  - exact (Hentry "f1" [x01] eq_refl).
  - exact (Hentry "f3" [x03] eq_refl).
Defined.

